(** * The consensus query API of the PBFT engine (package [pbft], api.go)
      and the engine selection of [fst/backend.go]

    A shallow embedding of the user-facing RPC API of the proof-of-authority
    engine: the snapshot and validator queries, the local proposal table
    ([Votes], [Vote], [DropVote]), the [BlockStatus] activity report, and
    [CreateConsensusEngine]. *)

From Stdlib Require Import ZArith List Lia Floats.SpecFloat.
From stdpp Require Import base option list gmap fin_maps strings.

Local Open Scope Z_scope.

(* ===================================================================== *)
(** * 1. Machine integers and floats *)
(* ===================================================================== *)

(** [uint64] arithmetic wraps modulo 2^64. *)
Definition u64 (x : Z) : Z := x mod 2 ^ 64.

(** Go's [int] on the 64-bit targets of the build: two's complement wrap. *)
Definition wrap_int (x : Z) : Z := (x + 2 ^ 63) mod 2 ^ 64 - 2 ^ 63.

(** The [Uint64] method of a big integer: the low 64 bits of the magnitude. *)
Definition big_Uint64 (x : Z) : Z := Z.abs x mod 2 ^ 64.

(** IEEE 754 binary64, as the Standard Library specifies it. *)
Definition float64 : Type := spec_float.

(** The conversion [float64(i)] of an integer: round to nearest even. *)
Definition float64_of_Z (i : Z) : float64 := binary_normalize 53 1024 i 0 false.

Definition float64_div (x y : float64) : float64 := SFdiv 53 1024 x y.

(* ===================================================================== *)
(** * 2. Errors and results *)
(* ===================================================================== *)

(** Go [error] values the API can return.  [errUnknownBlock] is the package
    variable; [errMissingBlock n] is [fmt.Errorf("missing block %d", n)];
    [errEngine c] stands for whatever error the snapshot store or the
    signature recovery hands back. *)
Inductive error : Type :=
  | errUnknownBlock
  | errMissingBlock (n : Z)
  | errEngine (code : N).

(** The outcome of a call that returns [(T, error)]: a value with a nil
    error, a nil value with an error, or a run-time panic. *)
Inductive result (A : Type) : Type :=
  | Ok (a : A)
  | Err (e : error)
  | Panic.
Arguments Ok {A} a.
Arguments Err {A} e.
Arguments Panic {A}.

#[global] Instance result_ret : MRet result := fun A a => Ok a.
#[global] Instance result_bind : MBind result := fun A B f m =>
  match m with
  | Ok a => f a
  | Err e => Err e
  | Panic => Panic
  end.

(* ===================================================================== *)
(** * 3. Chain data *)
(* ===================================================================== *)

(** [common.Address] is a 20-byte array and [common.Hash] a 32-byte array;
    both are read as big-endian numbers. *)
Abbreviation Address := N (only parsing).
Abbreviation Hash := N (only parsing).

(** The fields of [types.Header]; [Number] and [Difficulty] are [*big.Int]. *)
Record Header : Type := {
  ParentHash : Hash;
  Coinbase : Address;
  Difficulty : Z;
  Number : Z;
  Time : Z;
  Extra : list N
}.

(** The part of [consensus.ChainReader] the API calls.  A lookup that
    misses returns nil. *)
Record ChainReader : Type := {
  CurrentHeader : option Header;
  GetHeaderByNumber : Z -> option Header;
  GetHeaderByHash : Hash -> option Header
}.

(* ===================================================================== *)
(** * 4. Go maps on a heap *)
(* ===================================================================== *)

(** A Go map value is a reference: nil, or a pointer to a table on the
    heap.  Two variables holding the same pointer see each other's writes. *)
Inductive mapref : Type :=
  | nilmap
  | mapptr (l : positive).

Abbreviation table := (gmap N bool) (only parsing).
Abbreviation heap := (gmap positive (gmap N bool)) (only parsing).

(** [make(map[common.Address]bool)]: a fresh, empty table. *)
Definition make_map (h : heap) : mapref * heap :=
  let l := fresh (dom h) in (mapptr l, <[l := ∅]> h).

(** [m[k] = v].  Writing to a nil map panics ([None]). *)
Definition mapassign (m : mapref) (k : Address) (v : bool) (h : heap) : option heap :=
  match m with
  | nilmap => None
  | mapptr l =>
      match h !! l with
      | Some t => Some (<[l := <[k := v]> t]> h)
      | None => None
      end
  end.

(** [delete(m, k)].  Deleting from a nil map is a no-op. *)
Definition mapdelete (m : mapref) (k : Address) (h : heap) : heap :=
  match m with
  | nilmap => h
  | mapptr l =>
      match h !! l with
      | Some t => <[l := delete k t]> h
      | None => h
      end
  end.

(** The entries a [range] over the map visits (none for a nil map). *)
Definition mapentries (m : mapref) (h : heap) : list (Address * bool) :=
  match m with
  | nilmap => []
  | mapptr l => map_to_list (default ∅ (h !! l))
  end.

(** The table a map reference denotes, when it denotes one. *)
Definition deref (m : mapref) (h : heap) : option table :=
  match m with
  | nilmap => None
  | mapptr l => h !! l
  end.

(* ===================================================================== *)
(** * 5. The engine and its API object *)
(* ===================================================================== *)

(** [Pbft]: of the engine's fields the API touches the proposal table only
    (the lock that guards it orders concurrent calls and has no sequential
    effect). *)
Record Pbft : Type := {
  proposals : mapref
}.

Record API : Type := {
  chain : ChainReader;
  pbft : Pbft
}.

(** [status], the value [BlockStatus] returns. *)
Record status : Type := {
  InturnPercent : float64;
  SigningStatus : gmap N Z;
  NumBlocks : Z
}.

(** The local variables the loop of [BlockStatus] updates. *)
Record counters : Type := {
  optimals : Z;
  diff : Z;
  signStatus : gmap N Z
}.

(** [signStatus[sealer]++]: an absent key reads as zero. *)
Definition incr_count (sealer : Address) (m : gmap N Z) : gmap N Z :=
  <[sealer := wrap_int (default 0 (m !! sealer) + 1)]> m.

(** [for _, s := range signers { signStatus[s] = 0 }] on a fresh map. *)
Definition zero_counts (signers : list Address) : gmap N Z :=
  foldl (fun m s => <[s := 0]> m) ∅ signers.

(* ===================================================================== *)
(** * 6. The local proposal table *)
(* ===================================================================== *)

(** [for address, auth := range src { dst[address] = auth }], over the
    entries in the order the iteration visits them. *)
Fixpoint range_copy (dst : mapref) (entries : list (Address * bool)) (h : heap) : option heap :=
  match entries with
  | [] => Some h
  | (address, auth) :: entries' =>
      match mapassign dst address auth h with
      | Some h' => range_copy dst entries' h'
      | None => None
      end
  end.

(** [Votes], with the visiting order of the [range] made a parameter: Go
    leaves it unspecified. *)
Definition Votes_in_order (order : list (Address * bool) -> list (Address * bool))
    (api : API) (h : heap) : option (mapref * heap) :=
  let '(proposals', h1) := make_map h in
  match range_copy proposals' (order (mapentries (proposals (pbft api)) h1)) h1 with
  | Some h2 => Some (proposals', h2)
  | None => None
  end.

(** [Votes] returns the map it built and the heap that now holds it. *)
Definition Votes (api : API) (h : heap) : option (mapref * heap) :=
  Votes_in_order (fun entries => entries) api h.

(** [Vote]: [api.pbft.proposals[address] = auth]. *)
Definition Vote (api : API) (address : Address) (auth : bool) (h : heap) : option heap :=
  mapassign (proposals (pbft api)) address auth h.

(** [DropVote]: [delete(api.pbft.proposals, address)]. *)
Definition DropVote (api : API) (address : Address) (h : heap) : heap :=
  mapdelete (proposals (pbft api)) address h.

(** A write a caller may later make through a map reference it holds. *)
Inductive mutation : Type :=
  | Assign (k : Address) (v : bool)
  | Delete (k : Address).

Fixpoint mutate (m : mapref) (ws : list mutation) (h : heap) : option heap :=
  match ws with
  | [] => Some h
  | Assign k v :: ws' =>
      match mapassign m k v h with
      | Some h' => mutate m ws' h'
      | None => None
      end
  | Delete k :: ws' => mutate m ws' (mapdelete m k h)
  end.

(** The engine's proposal table is live: [New] made it and nothing frees it. *)
Definition proposals_at (api : API) (h : heap) (P : table) : Prop :=
  deref (proposals (pbft api)) h = Some P.

(* ===================================================================== *)
(** * 7. Engine selection ([fst/backend.go]) *)
(* ===================================================================== *)

Module backend.

(** [params.CliqueConfig] and [params.PbftConfig]. *)
Record CliqueConfig : Type := { clique_Period : Z; clique_Epoch : Z }.
Record PbftConfig : Type := { pbft_Period : Z; pbft_Epoch : Z }.

(** The two fields of [params.ChainConfig] the selection reads; both are
    pointers. *)
Record ChainConfig : Type := {
  Clique : option CliqueConfig;
  Pbft : option PbftConfig
}.

(** [fstash.Config]; [PowMode] is a [uint]. *)
Record Config : Type := {
  CacheDir : string;
  CachesInMem : Z;
  CachesOnDisk : Z;
  DatasetDir : string;
  DatasetsInMem : Z;
  DatasetsOnDisk : Z;
  PowMode : Z
}.

(** [node.ServiceContext], as far as it is used. *)
Record ServiceContext : Type := { ResolvePath : string -> string }.

(** A [consensus.Engine] value, named by the constructor call that made
    it.  [fstash_New] also records the thread count set on it. *)
Inductive Engine : Type :=
  | clique_New (config : CliqueConfig) (db : N)
  | pbft_New (config : PbftConfig) (db : N)
  | fstash_NewFaker
  | fstash_NewTester (notify : list string) (noverify : bool)
  | fstash_NewShared
  | fstash_New (config : Config) (notify : list string) (noverify : bool) (threads : Z).

(** The three families of engines. *)
Inductive Family : Type := ProofOfAuthority | BFT | ProofOfWork.

Definition family (e : Engine) : Family :=
  match e with
  | clique_New _ _ => ProofOfAuthority
  | pbft_New _ _ => BFT
  | _ => ProofOfWork
  end.

Section Selection.

(** The mode constants of package [fstash]. *)
Variables ModeFake ModeTest ModeShared : Z.

(** [CreateConsensusEngine]: the engine, and the warnings logged on
    the way.  [fstash.NewTester] is handed a nil notify list. *)
Definition CreateConsensusEngine (ctx : ServiceContext) (chainConfig : ChainConfig)
    (config : Config) (notify : list string) (noverify : bool) (db : N)
    : list string * Engine :=
  match Clique chainConfig with
  | Some clique => ([], clique_New clique db)
  | None =>
      match Pbft chainConfig with
      | Some pbft => ([], pbft_New pbft db)
      | None =>
          if PowMode config =? ModeFake then
            (["Fstash used in fake mode"%string], fstash_NewFaker)
          else if PowMode config =? ModeTest then
            (["Fstash used in test mode"%string], fstash_NewTester [] noverify)
          else if PowMode config =? ModeShared then
            (["Fstash used in shared mode"%string], fstash_NewShared)
          else
            ([], fstash_New
                   {| CacheDir := ResolvePath ctx (CacheDir config);
                      CachesInMem := CachesInMem config;
                      CachesOnDisk := CachesOnDisk config;
                      DatasetDir := DatasetDir config;
                      DatasetsInMem := DatasetsInMem config;
                      DatasetsOnDisk := DatasetsOnDisk config;
                      PowMode := 0 |}
                   notify noverify (-1))
      end
  end.

End Selection.

End backend.

(* ===================================================================== *)
(** * 7a. The node service ([fst/backend.go], continued) *)
(* ===================================================================== *)

Module fst.

(** An [accounts.Wallet]: where it lives and the accounts it holds. *)
Record Wallet : Type := { URL : N; Accounts : list Address }.

(** The fields of [fst.Config] the functions below read. *)
Record Config : Type := {
  TxPool_Locals : list Address;
  LightServ : Z;
  LightPeers : Z
}.

(** The [Filestorm] service.  The account manager is the list of wallets
    it currently holds; [engine_signer] is the account and wallet the
    engine was last authorised with; of the miner the service sees whether
    it is mining, its etherbase, and the start requests handed to it; of
    the transaction pool and the protocol manager one field each. *)
Record Filestorm : Type := {
  config : Config;
  lesServer : option N;
  engine : backend.Engine;
  engine_signer : option (Address * Wallet);
  accountManager : list Wallet;
  gasPrice : Z;
  txPool_gasPrice : Z;
  stormbase : Address;
  networkID : Z;
  acceptTxs : Z;
  miner_mining : bool;
  miner_etherbase : Address;
  miner_started : list Address
}.

Definition set_stormbase (s : Filestorm) (a : Address) : Filestorm :=
  {| config := config s; lesServer := lesServer s; engine := engine s;
     engine_signer := engine_signer s; accountManager := accountManager s;
     gasPrice := gasPrice s; txPool_gasPrice := txPool_gasPrice s;
     stormbase := a; networkID := networkID s; acceptTxs := acceptTxs s;
     miner_mining := miner_mining s; miner_etherbase := miner_etherbase s;
     miner_started := miner_started s |}.

Definition set_engine (s : Filestorm) (e : backend.Engine) : Filestorm :=
  {| config := config s; lesServer := lesServer s; engine := e;
     engine_signer := engine_signer s; accountManager := accountManager s;
     gasPrice := gasPrice s; txPool_gasPrice := txPool_gasPrice s;
     stormbase := stormbase s; networkID := networkID s; acceptTxs := acceptTxs s;
     miner_mining := miner_mining s; miner_etherbase := miner_etherbase s;
     miner_started := miner_started s |}.

Definition set_engine_signer (s : Filestorm) (a : Address) (w : Wallet) : Filestorm :=
  {| config := config s; lesServer := lesServer s; engine := engine s;
     engine_signer := Some (a, w); accountManager := accountManager s;
     gasPrice := gasPrice s; txPool_gasPrice := txPool_gasPrice s;
     stormbase := stormbase s; networkID := networkID s; acceptTxs := acceptTxs s;
     miner_mining := miner_mining s; miner_etherbase := miner_etherbase s;
     miner_started := miner_started s |}.

Definition set_txPool_gasPrice (s : Filestorm) (price : Z) : Filestorm :=
  {| config := config s; lesServer := lesServer s; engine := engine s;
     engine_signer := engine_signer s; accountManager := accountManager s;
     gasPrice := gasPrice s; txPool_gasPrice := price;
     stormbase := stormbase s; networkID := networkID s; acceptTxs := acceptTxs s;
     miner_mining := miner_mining s; miner_etherbase := miner_etherbase s;
     miner_started := miner_started s |}.

Definition set_miner_etherbase (s : Filestorm) (a : Address) : Filestorm :=
  {| config := config s; lesServer := lesServer s; engine := engine s;
     engine_signer := engine_signer s; accountManager := accountManager s;
     gasPrice := gasPrice s; txPool_gasPrice := txPool_gasPrice s;
     stormbase := stormbase s; networkID := networkID s; acceptTxs := acceptTxs s;
     miner_mining := miner_mining s; miner_etherbase := a;
     miner_started := miner_started s |}.

(** [atomic.StoreUint32(&s.protocolManager.acceptTxs, 1)] followed by
    [go s.miner.Start(eb)]: the request is recorded, the miner runs on its
    own. *)
Definition accept_and_start (s : Filestorm) (eb : Address) : Filestorm :=
  {| config := config s; lesServer := lesServer s; engine := engine s;
     engine_signer := engine_signer s; accountManager := accountManager s;
     gasPrice := gasPrice s; txPool_gasPrice := txPool_gasPrice s;
     stormbase := stormbase s; networkID := networkID s; acceptTxs := 1;
     miner_mining := miner_mining s; miner_etherbase := miner_etherbase s;
     miner_started := miner_started s ++ [eb] |}.

(** The errors the service makes: "stormbase must be explicitly
    specified", "stormbase missing: <cause>", "signer missing: <cause>"
    (the cause may be nil) and "invalid peer config: light peer count (l)
    >= total peer count (t)". *)
Inductive error : Type :=
  | errStormbaseUnspecified
  | errStormbaseMissing (cause : error)
  | errSignerMissing (cause : option N)
  | errPeerConfig (light total : Z).

(** [makeExtraData].  The default is the RLP encoding of the client
    version, "storm", the Go version and the operating system; the limit
    is [params.MaximumExtraDataSize], a [uint64].  The warning logged when
    the data is dropped is not kept. *)
Definition makeExtraData (default_extra : list N) (MaximumExtraDataSize : Z)
    (extra : list N) : list N :=
  let extra := if Z.of_nat (length extra) =? 0 then default_extra else extra in
  if Z.of_nat (length extra) >? MaximumExtraDataSize then [] else extra.

(** [Stormbase]: the configured address, or else the first account of the
    first wallet, which is then remembered. *)
Definition Stormbase (s : Filestorm) : Filestorm * (error + Address) :=
  if negb (stormbase s =? 0)%N then (s, inr (stormbase s))
  else
    match accountManager s with
    | wallet0 :: _ =>
        match Accounts wallet0 with
        | account0 :: _ => (set_stormbase s account0, inr account0)
        | [] => (s, inl errStormbaseUnspecified)
        end
    | [] => (s, inl errStormbaseUnspecified)
    end.

(** [SetEtherbase]. *)
Definition SetEtherbase (s : Filestorm) (a : Address) : Filestorm :=
  set_miner_etherbase (set_stormbase s a) a.

(** [for _, account := range locals { if account == author { return true } }
    return false]. *)
Fixpoint is_local_account (locals : list Address) (author : Address) : bool :=
  match locals with
  | [] => false
  | account :: locals' => if (account =? author)%N then true else is_local_account locals' author
  end.

Section Engine.

(** The [Author] method of the engine, [None] when it returns an error
    (which one is only logged); whether the engine's type has a
    [SetThreads] method, and what the call leaves; the account manager's
    [Find], which returns a wallet and an error, either of which may be
    nil. *)
Variable engine_Author : backend.Engine -> Header -> option Address.
Variable threaded : backend.Engine -> bool.
Variable SetThreads : backend.Engine -> Z -> backend.Engine.
Variable Find : list Wallet -> Address -> option Wallet * option N.

(** [isLocalBlock]; the block is given by its header. *)
Definition isLocalBlock (s : Filestorm) (block : Header) : bool :=
  match engine_Author (engine s) block with
  | Some author =>
      if (author =? stormbase s)%N then true
      else is_local_account (TxPool_Locals (config s)) author
  | None => false
  end.

(** [shouldPreserve]. *)
Definition shouldPreserve (s : Filestorm) (block : Header) : bool :=
  match engine s with
  | backend.clique_New _ _ => false
  | backend.pbft_New _ _ => false
  | _ => isLocalBlock s block
  end.

(** The wallet lookup and authorisation [StartMining] makes for an engine
    that signs blocks. *)
Definition authorize_signer (s : Filestorm) (eb : Address) : Filestorm * option error :=
  match Find (accountManager s) eb with
  | (Some wallet, None) => (set_engine_signer s eb wallet, None)
  | (_, err) => (s, Some (errSignerMissing err))
  end.

(** [StartMining]. *)
Definition StartMining (s : Filestorm) (threads : Z) : Filestorm * option error :=
  let s :=
    if threaded (engine s) then
      let threads := if threads =? 0 then -1 else threads in
      set_engine s (SetThreads (engine s) threads)
    else s in
  if negb (miner_mining s) then
    let s := set_txPool_gasPrice s (gasPrice s) in
    match Stormbase s with
    | (s, inl err) => (s, Some (errStormbaseMissing err))
    | (s, inr eb) =>
        let '(s, failed) :=
          match engine s with
          | backend.clique_New _ _ => authorize_signer s eb
          | _ => (s, None)
          end in
        match failed with
        | Some err => (s, Some err)
        | None =>
            let '(s, failed) :=
              match engine s with
              | backend.pbft_New _ _ => authorize_signer s eb
              | _ => (s, None)
              end in
            match failed with
            | Some err => (s, Some err)
            | None => (accept_and_start s eb, None)
            end
        end
    end
  else (s, None).

End Engine.

(** What [Start] sets going, in order. *)
Inductive action : Type :=
  | startEthEntryUpdate
  | startBloomHandlers
  | NewPublicNetAPI (networkID : Z)
  | protocolManager_Start (maxPeers : Z)
  | lesServer_Start (ls : N).

(** [Start]; of the server it reads [MaxPeers]. *)
Definition Start (s : Filestorm) (srvr_MaxPeers : Z) : list action * option error :=
  let begun := [startEthEntryUpdate; startBloomHandlers; NewPublicNetAPI (networkID s)] in
  let maxPeers := srvr_MaxPeers in
  let checked :=
    if LightServ (config s) >? 0 then
      if LightPeers (config s) >=? srvr_MaxPeers then
        inl (errPeerConfig (LightPeers (config s)) srvr_MaxPeers)
      else inr (wrap_int (maxPeers - LightPeers (config s)))
    else inr maxPeers in
  match checked with
  | inl err => (begun, Some err)
  | inr maxPeers =>
      (begun ++ [protocolManager_Start maxPeers] ++
         match lesServer s with
         | Some ls => [lesServer_Start ls]
         | None => []
         end,
       None)
  end.

End fst.

(* ===================================================================== *)
(** * 7b. The application-chain contract
      ([cross-chain/contracts/AppChainBase.sol]) *)
(* ===================================================================== *)

Module AppChainBase.

(** [uint256] arithmetic wraps modulo 2^256 (the compiler is 0.4.24). *)
Definition u256 (x : Z) : Z := x mod 2 ^ 256.

(** ** The library [SafeMath]; a failed [require] is [None]. *)

Definition SafeMath_mul (a b : Z) : option Z :=
  if a =? 0 then Some 0
  else
    let c := u256 (a * b) in
    if c / a =? b then Some c else None.

Definition SafeMath_div (a b : Z) : option Z :=
  if b >? 0 then Some (a / b) else None.

Definition SafeMath_sub (a b : Z) : option Z :=
  if b <=? a then Some (u256 (a - b)) else None.

Definition SafeMath_add (a b : Z) : option Z :=
  let c := u256 (a + b) in
  if c >=? a then Some c else None.

Definition SafeMath_mod (a b : Z) : option Z :=
  if negb (b =? 0) then Some (a mod b) else None.

(** ** The contract *)

Definition FOUNDATION_MOAC_REQUIRED_AMOUNT : Z := 5 * 10 ^ 17.
Definition FLUSH_AMOUNT : Z := 5 * 10 ^ 16.
Definition FOUNDATION_BLACK_HOLE_ADDRESS : Address :=
  0x48328afC8dd45C1C252E7E883fc89bd17ddEe7c0%N.

Record flushRound : Type := {
  flushId : Z;
  validator : Address;
  blockNumber : Z;
  blockHash : string
}.

(** The zero value a mapping holds for a key never written. *)
Definition no_round : flushRound :=
  {| flushId := 0; validator := 0%N; blockNumber := 0; blockHash := "" |}.

(** The storage of the contract, and [ether], the balance of its account. *)
Record State : Type := {
  owner : Address;
  admins : gmap N Z;
  chainName : string;
  balance : Z;
  chainId : Z;
  period : Z;
  flushEpoch : Z;
  lastFlushedBlock : Z;
  genesisInfo : string;
  genesisSet : bool;
  flushMapping : gmap Z flushRound;
  flushList : list Z;
  flushValidatorList : gmap Z (list Address);
  extraData : string;
  tokenTotal : Z;
  ether : Z
}.

(** [msg.sender] and [msg.value]. *)
Record Msg : Type := { sender : Address; value : Z }.

Definition set_chainName (s : State) (name : string) : State :=
  {| owner := owner s; admins := admins s; chainName := name; balance := balance s;
     chainId := chainId s; period := period s; flushEpoch := flushEpoch s;
     lastFlushedBlock := lastFlushedBlock s; genesisInfo := genesisInfo s;
     genesisSet := genesisSet s; flushMapping := flushMapping s; flushList := flushList s;
     flushValidatorList := flushValidatorList s; extraData := extraData s;
     tokenTotal := tokenTotal s; ether := ether s |}.

Definition set_flushEpoch (s : State) (epoch : Z) : State :=
  {| owner := owner s; admins := admins s; chainName := chainName s; balance := balance s;
     chainId := chainId s; period := period s; flushEpoch := epoch;
     lastFlushedBlock := lastFlushedBlock s; genesisInfo := genesisInfo s;
     genesisSet := genesisSet s; flushMapping := flushMapping s; flushList := flushList s;
     flushValidatorList := flushValidatorList s; extraData := extraData s;
     tokenTotal := tokenTotal s; ether := ether s |}.

Definition set_admins (s : State) (m : gmap N Z) : State :=
  {| owner := owner s; admins := m; chainName := chainName s; balance := balance s;
     chainId := chainId s; period := period s; flushEpoch := flushEpoch s;
     lastFlushedBlock := lastFlushedBlock s; genesisInfo := genesisInfo s;
     genesisSet := genesisSet s; flushMapping := flushMapping s; flushList := flushList s;
     flushValidatorList := flushValidatorList s; extraData := extraData s;
     tokenTotal := tokenTotal s; ether := ether s |}.

Definition set_funds (s : State) (bal eth : Z) : State :=
  {| owner := owner s; admins := admins s; chainName := chainName s; balance := bal;
     chainId := chainId s; period := period s; flushEpoch := flushEpoch s;
     lastFlushedBlock := lastFlushedBlock s; genesisInfo := genesisInfo s;
     genesisSet := genesisSet s; flushMapping := flushMapping s; flushList := flushList s;
     flushValidatorList := flushValidatorList s; extraData := extraData s;
     tokenTotal := tokenTotal s; ether := eth |}.

Definition set_genesis (s : State) (genesis : string) : State :=
  {| owner := owner s; admins := admins s; chainName := chainName s; balance := balance s;
     chainId := chainId s; period := period s; flushEpoch := flushEpoch s;
     lastFlushedBlock := lastFlushedBlock s; genesisInfo := genesis;
     genesisSet := true; flushMapping := flushMapping s; flushList := flushList s;
     flushValidatorList := flushValidatorList s; extraData := extraData s;
     tokenTotal := tokenTotal s; ether := ether s |}.

(** [admins[a] == 1]. *)
Definition is_admin (s : State) (a : Address) : bool := default 0 (admins s !! a) =? 1.

(** [for (...) { list.push(vals[i]); }]. *)
Fixpoint push_all (l vals : list Address) : list Address :=
  match vals with
  | [] => l
  | v :: vals' => push_all (l ++ [v]) vals'
  end.

(** The validators stored for the latest round,
    [flushValidatorList[flushList.length-1]]. *)
Definition latest_validators (s : State) : list Address :=
  default [] (flushValidatorList s !! u256 (Z.of_nat (length (flushList s)) - 1)).

(** The constructor, invoked with [msg] on an account that already holds
    [pre_ether]. *)
Definition constructor (pre_ether : Z) (msg : Msg) (name : string)
    (uniqueId blockSec flushNumber : Z) (initial_validators : list Address)
    (totalSupply : Z) : option State :=
  if value msg >=? FOUNDATION_MOAC_REQUIRED_AMOUNT then
    Some {| owner := sender msg;
            admins := <[sender msg := 1]> ∅;
            chainName := name;
            balance := value msg;
            chainId := uniqueId;
            period := blockSec;
            flushEpoch := flushNumber;
            lastFlushedBlock := 0;
            genesisInfo := "";
            genesisSet := false;
            flushMapping :=
              <[0 := {| flushId := 0; validator := sender msg;
                        blockNumber := 1; blockHash := "" |}]> ∅;
            flushList := [0];
            flushValidatorList := <[0 := push_all [] initial_validators]> ∅;
            extraData := "";
            tokenTotal := totalSupply;
            ether := pre_ether + value msg |}
  else None.

Section Calls.

(** Whether a plain transfer to an address goes through (the recipient
    may be a contract that refuses it). *)
Variable accepts : Address -> bool.

(** A function that is not [payable] reverts when sent ether. *)
Definition nonpayable (msg : Msg) (body : option State) : option State :=
  if value msg =? 0 then body else None.

Definition updateChainName (s : State) (msg : Msg) (name : string) : option State :=
  nonpayable msg
    (if is_admin s (sender msg) then Some (set_chainName s name) else None).

Definition updateFlushEpoch (s : State) (msg : Msg) (newEpoch : Z) : option State :=
  nonpayable msg
    (if is_admin s (sender msg) then
       if newEpoch >=? 360 then Some (set_flushEpoch s newEpoch) else None
     else None).

Definition addAdmin (s : State) (msg : Msg) (admin : Address) : option State :=
  nonpayable msg
    (if is_admin s (sender msg) then Some (set_admins s (<[admin := 1]> (admins s)))
     else None).

Definition removeAdmin (s : State) (msg : Msg) (admin : Address) : option State :=
  nonpayable msg
    (if is_admin s (sender msg) then
       if negb (admin =? sender msg)%N then Some (set_admins s (<[admin := 0]> (admins s)))
       else None
     else None).

Definition addFund (s : State) (msg : Msg) : option State :=
  Some (set_funds s (u256 (balance s + value msg)) (ether s + value msg)).

(** [to.transfer(amount)] out of the contract's account. *)
Definition transfer (s : State) (to : Address) (amount : Z) : option State :=
  if (amount <=? ether s) && accepts to
  then Some (set_funds s (balance s) (ether s - amount))
  else None.

Definition withdrawFund (s : State) (msg : Msg) (recv : Address) (amount : Z) : option State :=
  nonpayable msg
    (if is_admin s (sender msg) then
       if amount <=? balance s then
         transfer (set_funds s (u256 (balance s - amount)) (ether s)) recv amount
       else None
     else None).

(** Whether the loop of [flush] finds an entry at which its test holds. *)
Fixpoint flush_allowed (s : State) (msg : Msg) (number : Z)
    (validators : list Address) : bool :=
  match validators with
  | [] => false
  | v :: validators' =>
      if ((v =? sender msg)%N || is_admin s (sender msg)) &&
         (u256 (lastFlushedBlock s + flushEpoch s) =? number)
      then true
      else flush_allowed s msg number validators'
  end.

(** The body of [flush], shared with [superflush], which calls it;
    [number] and [hash] are its arguments [blockNumber] and [blockHash]. *)
Definition flush_body (s : State) (msg : Msg) (current_validators : list Address)
    (number : Z) (hash : string) : option State :=
  if balance s >? 0 then
    if u256 (lastFlushedBlock s + flushEpoch s) =? number then
      let flushId0 := u256 (Z.of_nat (length (flushList s)) - 1) in
      if flush_allowed s msg number (default [] (flushValidatorList s !! flushId0)) then
        let flushId1 := u256 (flushId0 + 1) in
        let s1 :=
          {| owner := owner s; admins := admins s; chainName := chainName s;
             balance := u256 (balance s - FLUSH_AMOUNT);
             chainId := chainId s; period := period s; flushEpoch := flushEpoch s;
             lastFlushedBlock := lastFlushedBlock s;
             genesisInfo := genesisInfo s; genesisSet := genesisSet s;
             flushMapping :=
               <[flushId1 := {| flushId := flushId1; validator := sender msg;
                                blockNumber := number; blockHash := hash |}]>
                 (flushMapping s);
             flushList := flushList s ++ [flushId1];
             flushValidatorList :=
               <[flushId1 := push_all (default [] (flushValidatorList s !! flushId1))
                               current_validators]> (flushValidatorList s);
             extraData := extraData s; tokenTotal := tokenTotal s; ether := ether s |} in
        match transfer s1 FOUNDATION_BLACK_HOLE_ADDRESS FLUSH_AMOUNT with
        | Some s2 =>
            Some {| owner := owner s2; admins := admins s2; chainName := chainName s2;
                    balance := balance s2; chainId := chainId s2; period := period s2;
                    flushEpoch := flushEpoch s2;
                    lastFlushedBlock :=
                      blockNumber (default no_round (flushMapping s2 !! flushId1));
                    genesisInfo := genesisInfo s2; genesisSet := genesisSet s2;
                    flushMapping := flushMapping s2; flushList := flushList s2;
                    flushValidatorList := flushValidatorList s2;
                    extraData := extraData s2; tokenTotal := tokenTotal s2;
                    ether := ether s2 |}
        | None => None
        end
      else Some s
    else None
  else None.

Definition flush (s : State) (msg : Msg) (current_validators : list Address)
    (number : Z) (hash : string) : option State :=
  nonpayable msg (flush_body s msg current_validators number hash).

Definition superflush (s : State) (msg : Msg) (number : Z) (hash : string)
    : option State :=
  nonpayable msg
    (if balance s >? 0 then
       if is_admin s (sender msg) then
         flush_body s msg (latest_validators s) number hash
       else None
     else None).

Definition setGenesisInfo (s : State) (msg : Msg) (genesis : string) : option State :=
  nonpayable msg
    (if is_admin s (sender msg) then
       if negb (genesisSet s) then Some (set_genesis s genesis) else None
     else None).

Definition getGenesisInfo (s : State) : string := genesisInfo s.

(** What can happen to the contract: a call of one of its functions, or
    ether arriving without a call (a self-destruct or a block reward). *)
Inductive Call : Type :=
  | UpdateChainName (name : string)
  | UpdateFlushEpoch (newEpoch : Z)
  | AddAdmin (admin : Address)
  | RemoveAdmin (admin : Address)
  | AddFund
  | WithdrawFund (recv : Address) (amount : Z)
  | Flush (current_validators : list Address) (number : Z) (hash : string)
  | Superflush (number : Z) (hash : string)
  | SetGenesisInfo (genesis : string)
  | ForcedEther.

Definition exec (s : State) (msg : Msg) (c : Call) : option State :=
  match c with
  | UpdateChainName name => updateChainName s msg name
  | UpdateFlushEpoch newEpoch => updateFlushEpoch s msg newEpoch
  | AddAdmin admin => addAdmin s msg admin
  | RemoveAdmin admin => removeAdmin s msg admin
  | AddFund => addFund s msg
  | WithdrawFund recv amount => withdrawFund s msg recv amount
  | Flush vals n h => flush s msg vals n h
  | Superflush n h => superflush s msg n h
  | SetGenesisInfo genesis => setGenesisInfo s msg genesis
  | ForcedEther => Some (set_funds s (balance s) (ether s + value msg))
  end.

(** A transaction that reverts leaves the state as it was. *)
Definition step (s : State) (tx : Msg * Call) : State :=
  default s (exec s tx.1 tx.2).

Definition run (s : State) (txs : list (Msg * Call)) : State := foldl step s txs.

End Calls.

End AppChainBase.

(* ===================================================================== *)
(** * 8. Sample chains *)
(* ===================================================================== *)

(** Block [n] of a sample chain: [difficulty n] is its difficulty and
    [sealer n] its producer, kept in the coinbase field. *)
Definition sample_header (difficulty : Z -> Z) (sealer : Z -> Address) (n : Z) : Header :=
  {| ParentHash := Z.to_N (n - 1); Coinbase := sealer n; Difficulty := difficulty n;
     Number := n; Time := 15 * n; Extra := [] |}.

(** A chain of the blocks 0..[head], indexed by number and by a hash that
    is the block number. *)
Definition sample_chain (head : Z) (difficulty : Z -> Z) (sealer : Z -> Address) : ChainReader :=
  {| CurrentHeader := Some (sample_header difficulty sealer head);
     GetHeaderByNumber := fun n =>
       if (0 <=? n) && (n <=? head) then Some (sample_header difficulty sealer n) else None;
     GetHeaderByHash := fun x =>
       if Z.of_N x <=? head then Some (sample_header difficulty sealer (Z.of_N x)) else None |}.

Definition sample_hash (h : Header) : Hash := Z.to_N (Number h).

(** Three signers taking turns; a snapshot is its signer list. *)
Definition sample_signers : list Address := [1%N; 2%N; 3%N].
Definition sample_sealer (n : Z) : Address := Z.to_N (n mod 3 + 1).
Definition sample_snapshot (_ : Pbft) (_ : ChainReader) (_ : Z) (_ : Hash)
  : result (list Address) := Ok sample_signers.
Definition failing_snapshot (_ : Pbft) (_ : ChainReader) (_ : Z) (_ : Hash)
  : result (list Address) := Err (errEngine 7).
Definition sample_Author (_ : Pbft) (h : Header) : result Address := Ok (Coinbase h).

(** An engine whose proposal table lives at heap cell 1. *)
Definition sample_pbft : Pbft := {| proposals := mapptr 1 |}.

Definition sample_api (head : Z) (difficulty : Z -> Z) : API :=
  {| chain := sample_chain head difficulty sample_sealer; pbft := sample_pbft |}.

(** In-turn difficulty 2 on the first [k] blocks after genesis, 1 on the
    genesis block and on the later ones. *)
Definition first_inturn (k : Z) (n : Z) : Z := if (1 <=? n) && (n <=? k) then 2 else 1.

(** A heap with the proposal table at cell 1 and another map at cell 2. *)
Definition sample_table : table := <[5%N := true]> (<[9%N := false]> ∅).
Definition sample_heap : heap :=
  <[1%positive := sample_table]> (<[2%positive := <[5%N := false]> ∅]> ∅).

(** Chain configurations: one for PBFT, one for proof of work in test mode
    (the mode constants being 3, 2, 1 for fake, test, shared). *)
Definition sample_ctx : backend.ServiceContext :=
  {| backend.ResolvePath := fun p => String.append "/data/" p |}.
Definition sample_pbft_chain : backend.ChainConfig :=
  {| backend.Clique := None;
     backend.Pbft := Some {| backend.pbft_Period := 15; backend.pbft_Epoch := 30000 |} |}.
Definition sample_pow_chain : backend.ChainConfig :=
  {| backend.Clique := None; backend.Pbft := None |}.
Definition sample_pow_config : backend.Config :=
  {| backend.CacheDir := "fstash"; backend.CachesInMem := 2; backend.CachesOnDisk := 3;
     backend.DatasetDir := "/dag"; backend.DatasetsInMem := 1; backend.DatasetsOnDisk := 2;
     backend.PowMode := 2 |}.

(** A service for the samples of the node functions: engine [e],
    configured stormbase [base], wallets [wallets]; addresses 31 and 32
    are the transaction pool's local accounts. *)
Definition sample_service (e : backend.Engine) (base : Address)
    (wallets : list fst.Wallet) (mining : bool) : fst.Filestorm :=
  {| fst.config := {| fst.TxPool_Locals := [31%N; 32%N];
                      fst.LightServ := 50; fst.LightPeers := 10 |};
     fst.lesServer := Some 1%N;
     fst.engine := e;
     fst.engine_signer := None;
     fst.accountManager := wallets;
     fst.gasPrice := 1000000000;
     fst.txPool_gasPrice := 1;
     fst.stormbase := base;
     fst.networkID := 20;
     fst.acceptTxs := 0;
     fst.miner_mining := mining;
     fst.miner_etherbase := base;
     fst.miner_started := [] |}.

Definition sample_wallet : fst.Wallet := {| fst.URL := 2; fst.Accounts := [21%N; 22%N] |}.
Definition empty_wallet : fst.Wallet := {| fst.URL := 1; fst.Accounts := [] |}.

Definition sample_clique : backend.Engine :=
  backend.clique_New {| backend.clique_Period := 15; backend.clique_Epoch := 30000 |} 0%N.
Definition sample_pow : backend.Engine :=
  backend.fstash_New sample_pow_config [] false (-1).

(** Engine methods for the samples: the author is the coinbase; only the
    full proof-of-work engine has threads; [Find] returns the first wallet
    that holds the account, or error 404. *)
Definition sample_engine_Author (_ : backend.Engine) (h : Header) : option Address :=
  Some (Coinbase h).
Definition sample_threaded (e : backend.Engine) : bool :=
  match e with backend.fstash_New _ _ _ _ => true | _ => false end.
Definition sample_SetThreads (e : backend.Engine) (threads : Z) : backend.Engine :=
  match e with
  | backend.fstash_New c n v _ => backend.fstash_New c n v threads
  | _ => e
  end.
Definition sample_Find (wallets : list fst.Wallet) (a : Address) : option fst.Wallet * option N :=
  match List.find (fun w => existsb (N.eqb a) (fst.Accounts w)) wallets with
  | Some w => (Some w, None)
  | None => (None, Some 404%N)
  end.

(** A chain 0..[head] whose block [gap] is missing, and an author
    recovery that fails with engine error 3 on block [bad]. *)
Definition gap_chain (head gap : Z) : ChainReader :=
  {| CurrentHeader := Some (sample_header (first_inturn 5) sample_sealer head);
     GetHeaderByNumber := fun n =>
       if (0 <=? n) && (n <=? head) && negb (n =? gap)
       then Some (sample_header (first_inturn 5) sample_sealer n) else None;
     GetHeaderByHash := fun _ => None |}.
Definition gap_api (head gap : Z) : API := {| chain := gap_chain head gap; pbft := sample_pbft |}.
Definition failing_Author (bad : Z) (_ : Pbft) (h : Header) : result Address :=
  if Number h =? bad then Err (errEngine 3) else Ok (Coinbase h).

(** The contract as account 100 deploys it with 5*10^17 wei, a flush epoch
    of 360 blocks and the validators 201 and 202; and the same contract
    deployed without validators. *)
Definition sample_deploy_msg : AppChainBase.Msg :=
  {| AppChainBase.sender := 100%N; AppChainBase.value := 5 * 10 ^ 17 |}.
Definition sample_contract_with (validators : list Address) : AppChainBase.State :=
  {| AppChainBase.owner := 100%N;
     AppChainBase.admins := <[100%N := 1]> ∅;
     AppChainBase.chainName := "app";
     AppChainBase.balance := 5 * 10 ^ 17;
     AppChainBase.chainId := 7;
     AppChainBase.period := 10;
     AppChainBase.flushEpoch := 360;
     AppChainBase.lastFlushedBlock := 0;
     AppChainBase.genesisInfo := "";
     AppChainBase.genesisSet := false;
     AppChainBase.flushMapping :=
       <[0 := {| AppChainBase.flushId := 0; AppChainBase.validator := 100%N;
                 AppChainBase.blockNumber := 1; AppChainBase.blockHash := "" |}]> ∅;
     AppChainBase.flushList := [0];
     AppChainBase.flushValidatorList := <[0 := validators]> ∅;
     AppChainBase.extraData := "";
     AppChainBase.tokenTotal := 1000000;
     AppChainBase.ether := 5 * 10 ^ 17 |}.
Definition sample_contract : AppChainBase.State := sample_contract_with [201%N; 202%N].

(** A call without ether from [a]; a recipient check that lets every
    transfer through. *)
Definition call_from (a : Address) : AppChainBase.Msg :=
  {| AppChainBase.sender := a; AppChainBase.value := 0 |}.
Definition accept_all (_ : Address) : bool := true.

(** The sample contract after its balance was drawn down to 10 wei while
    its account received the flush amount from elsewhere. *)
Definition sample_drained : AppChainBase.State :=
  AppChainBase.set_funds sample_contract 10 (10 + AppChainBase.FLUSH_AMOUNT).

(* ===================================================================== *)
(** * 9. The chain queries *)
(* ===================================================================== *)

Section Queries.

(** What api.go uses from the rest of the package and from [rpc] and
    [types]: the snapshot type with its [signers] method, the engine's
    [snapshot] and [Author] methods, the header hash, and two constants. *)
Variable Snapshot : Type.
Variable signers : Snapshot -> list Address.
Variable snapshot : Pbft -> ChainReader -> Z -> Hash -> result Snapshot.
Variable Author : Pbft -> Header -> result Address.
Variable Header_Hash : Header -> Hash.
Variable diffInTurn : Z.
Variable LatestBlockNumber : Z.

(** [GetBlockStatusByNumber]; [number] is a [*rpc.BlockNumber] (an
    [int64] behind a pointer). *)
Definition GetBlockStatusByNumber (api : API) (number : option Z) : result Snapshot :=
  let header :=
    match number with
    | None => CurrentHeader (chain api)
    | Some n =>
        if n =? LatestBlockNumber then CurrentHeader (chain api)
        else GetHeaderByNumber (chain api) (u64 n)
    end in
  match header with
  | None => Err errUnknownBlock
  | Some header =>
      snapshot (pbft api) (chain api) (big_Uint64 (Number header)) (Header_Hash header)
  end.

Definition GetBlockStatusByHash (api : API) (hash : Hash) : result Snapshot :=
  let header := GetHeaderByHash (chain api) hash in
  match header with
  | None => Err errUnknownBlock
  | Some header =>
      snapshot (pbft api) (chain api) (big_Uint64 (Number header)) (Header_Hash header)
  end.

Definition GetValidatorsByNumber (api : API) (number : option Z) : result (list Address) :=
  let header :=
    match number with
    | None => CurrentHeader (chain api)
    | Some n =>
        if n =? LatestBlockNumber then CurrentHeader (chain api)
        else GetHeaderByNumber (chain api) (u64 n)
    end in
  match header with
  | None => Err errUnknownBlock
  | Some header =>
      match snapshot (pbft api) (chain api) (big_Uint64 (Number header)) (Header_Hash header) with
      | Ok snap => Ok (signers snap)
      | Err err => Err err
      | Panic => Panic
      end
  end.

Definition GetValidatorsByHash (api : API) (hash : Hash) : result (list Address) :=
  let header := GetHeaderByHash (chain api) hash in
  match header with
  | None => Err errUnknownBlock
  | Some header =>
      match snapshot (pbft api) (chain api) (big_Uint64 (Number header)) (Header_Hash header) with
      | Ok snap => Ok (signers snap)
      | Err err => Err err
      | Panic => Panic
      end
  end.

(** [api.chain.GetHeaderByNumber(n)] as the loop calls it: the lookup
    itself writes the number it was asked for to the log [visited]. *)
Definition lookup_header (api : API) (n : Z) (visited : list Z) : list Z * option Header :=
  (visited ++ [n], GetHeaderByNumber (chain api) n).

(** One pass through the body of the loop of [BlockStatus] at block [n]:
    the header lookup, then the counters. *)
Definition BlockStatus_body (api : API) (n : Z) (c : counters) (visited : list Z)
    : list Z * result counters :=
  let '(visited', h) := lookup_header api n visited in
  (visited',
   match h with
   | None => Err (errMissingBlock n)
   | Some h =>
       let optimals' :=
         if Difficulty h =? diffInTurn then wrap_int (optimals c + 1) else optimals c in
       let diff' := u64 (diff c + big_Uint64 (Difficulty h)) in
       match Author (pbft api) h with
       | Ok sealer =>
           Ok {| optimals := optimals'; diff := diff';
                 signStatus := incr_count sealer (signStatus c) |}
       | Err err => Err err
       | Panic => Panic
       end
   end).

(** [for n := start; n < end; n++ { ... }].  [fuel] bounds the number of
    passes; [visited] is the log the header lookups write, in order. *)
Fixpoint BlockStatus_loop (fuel : nat) (api : API) (n end_ : Z)
    (c : counters) (visited : list Z) : list Z * result counters :=
  match fuel with
  | O => (visited, Ok c)
  | S fuel' =>
      if n <? end_ then
        let '(visited', r) := BlockStatus_body api n c visited in
        match r with
        | Ok c' => BlockStatus_loop fuel' api (u64 (n + 1)) end_ c' visited'
        | Err err => (visited', Err err)
        | Panic => (visited', Panic)
        end
      else (visited, Ok c)
  end.

(** [BlockStatus], with the log of the blocks its loop looked up.  The
    loop runs [end - start] times when [start < end] and not at all
    otherwise, which is the fuel it is given. *)
Definition BlockStatus (api : API) : list Z * result status :=
  match CurrentHeader (chain api) with
  | None => ([], Panic)
  | Some header =>
      match snapshot (pbft api) (chain api) (big_Uint64 (Number header)) (Header_Hash header) with
      | Err err => ([], Err err)
      | Panic => ([], Panic)
      | Ok snap =>
          let end_ := big_Uint64 (Number header) in
          let '(start, numBlocks) :=
            if 64 >? end_ then (1, u64 (end_ - 1)) else (u64 (end_ - 64), 64) in
          let signStatus0 := zero_counts (signers snap) in
          let '(visited, r) :=
            BlockStatus_loop (Z.to_nat (end_ - start)) api start end_
              {| optimals := 0; diff := 0; signStatus := signStatus0 |} [] in
          (visited,
           match r with
           | Ok c =>
               Ok {| InturnPercent :=
                       float64_div (float64_of_Z (wrap_int (100 * optimals c)))
                                   (float64_of_Z numBlocks);
                     SigningStatus := signStatus c;
                     NumBlocks := numBlocks |}
           | Err err => Err err
           | Panic => Panic
           end)
      end
  end.

(** ** Reading the chain block by block *)

(** Whether block [n] carries the in-turn difficulty. *)
Definition inturn_at (api : API) (n : Z) : bool :=
  match GetHeaderByNumber (chain api) n with
  | Some h => Difficulty h =? diffInTurn
  | None => false
  end.

(** The recovered producer of block [n], when the header is there and
    the recovery succeeds. *)
Definition sealer_at (api : API) (n : Z) : option Address :=
  match GetHeaderByNumber (chain api) n with
  | Some h => match Author (pbft api) h with Ok a => Some a | _ => None end
  | None => None
  end.

Definition count_inturn (api : API) (ns : list Z) : Z :=
  Z.of_nat (length (filter (fun n => inturn_at api n = true) ns)).

Definition count_sealed (api : API) (a : Address) (ns : list Z) : Z :=
  Z.of_nat (length (filter (fun n => sealer_at api n = Some a) ns)).

(** The counters one pass of the loop body leaves. *)
Definition body_counters (api : API) (n : Z) (c : counters) : result counters :=
  snd (BlockStatus_body api n c []).
Arguments body_counters : simpl never.

(** The loop body run over an explicit list of block numbers. *)
Fixpoint scan (api : API) (ns : list Z) (c : counters) (visited : list Z)
    : list Z * result counters :=
  match ns with
  | [] => (visited, Ok c)
  | n :: ns' =>
      match body_counters api n c with
      | Ok c' => scan api ns' c' (visited ++ [n])
      | Err err => (visited ++ [n], Err err)
      | Panic => (visited ++ [n], Panic)
      end
  end.

(** The blocks below a head numbered [N] that the report covers, as
    first block and count. *)
Definition window_start (N : Z) : Z := if N <? 64 then 1 else N - 64.
Definition window_blocks (N : Z) : list Z := seqZ (window_start N) (N - window_start N).


(** The counters the loop starts from. *)
Definition start_counters (snap : Snapshot) : counters :=
  {| optimals := 0; diff := 0; signStatus := zero_counts (signers snap) |}.

(** The block count the report carries for a head numbered [N]. *)
Definition reported_blocks (N : Z) : Z := if N <? 64 then u64 (N - 1) else 64.

Definition report (N : Z) (c : counters) : status :=
  {| InturnPercent :=
       float64_div (float64_of_Z (wrap_int (100 * optimals c)))
                   (float64_of_Z (reported_blocks N));
     SigningStatus := signStatus c;
     NumBlocks := reported_blocks N |}.


(** The count a signer ends with: untouched when it sealed none of the
    blocks, its starting count (zero when absent) plus [k] otherwise. *)
Definition tallied (before : option Z) (k : Z) : option Z :=
  if k =? 0 then before else Some (default 0 before + k).

(** The header a [*rpc.BlockNumber] argument stands for. *)
Definition resolve_number (api : API) (number : option Z) : option Header :=
  match number with
  | None => CurrentHeader (chain api)
  | Some n =>
      if n =? LatestBlockNumber then CurrentHeader (chain api)
      else GetHeaderByNumber (chain api) (u64 n)
  end.

(** The snapshot lookup every query makes once it holds a header. *)
Definition snapshot_at (api : API) (header : Header) : result Snapshot :=
  snapshot (pbft api) (chain api) (big_Uint64 (Number header)) (Header_Hash header).

Definition validators_at (api : API) (header : Header) : result (list Address) :=
  match snapshot_at api header with
  | Ok snap => Ok (signers snap)
  | Err err => Err err
  | Panic => Panic
  end.

(** ** Further notions for the status report *)

(** The sum of the counts a report holds. *)
Definition total_count (m : gmap N Z) : Z := map_fold (fun _ v acc => v + acc) 0 m.

(** The percentage [float64(100*k) / float64(n)] the report computes from
    [k] in-turn blocks among [n]. *)
Definition percent (k n : Z) : float64 :=
  float64_div (float64_of_Z (100 * k)) (float64_of_Z n).

(** [percent k n] is an ordinary number between 0 and 100, is 100 exactly
    when [k = n] and 0 exactly when [k = 0]. *)
Definition percent_ok (k n : Z) : bool :=
  SFleb (S754_zero false) (percent k n) &&
  SFleb (percent k n) (float64_of_Z 100) &&
  Bool.eqb (SFeqb (percent k n) (float64_of_Z 100)) (k =? n) &&
  Bool.eqb (SFeqb (percent k n) (S754_zero false)) (k =? 0).

(** ** Integer facts *)

Lemma big_Uint64_range (x : Z) : 0 <= big_Uint64 x < 2 ^ 64.
Proof. unfold big_Uint64. apply Z.mod_pos_bound. lia. Qed.

Lemma big_Uint64_small (x : Z) : 0 <= x < 2 ^ 64 -> big_Uint64 x = x.
Proof.
  intros Hx. unfold big_Uint64. rewrite Z.abs_eq by lia.
  apply Z.mod_small. lia.
Qed.

Lemma u64_small (x : Z) : 0 <= x < 2 ^ 64 -> u64 x = x.
Proof. intros Hx. unfold u64. apply Z.mod_small. lia. Qed.

Lemma wrap_int_small (x : Z) : - 2 ^ 63 <= x < 2 ^ 63 -> wrap_int x = x.
Proof.
  intros Hx. unfold wrap_int. rewrite Z.mod_small; lia.
Qed.

(** ** The loop is a scan of the window *)

Lemma BlockStatus_body_eq (api : API) (n : Z) (c : counters) (visited : list Z) :
  BlockStatus_body api n c visited = (visited ++ [n], body_counters api n c).
Proof. reflexivity. Qed.

Lemma body_counters_eq (api : API) (n : Z) (c : counters) :
  body_counters api n c =
    match GetHeaderByNumber (chain api) n with
    | None => Err (errMissingBlock n)
    | Some h =>
        match Author (pbft api) h with
        | Ok sealer =>
            Ok {| optimals :=
                    if Difficulty h =? diffInTurn then wrap_int (optimals c + 1)
                    else optimals c;
                  diff := u64 (diff c + big_Uint64 (Difficulty h));
                  signStatus := incr_count sealer (signStatus c) |}
        | Err err => Err err
        | Panic => Panic
        end
    end.
Proof. reflexivity. Qed.

Lemma BlockStatus_loop_scan (api : API) (end_ : Z) (fuel : nat) :
  forall (n : Z) (c : counters) (visited : list Z),
    0 <= n -> end_ < 2 ^ 64 -> end_ - n <= Z.of_nat fuel ->
    BlockStatus_loop fuel api n end_ c visited
    = scan api (seqZ n (end_ - n)) c visited.
Proof.
  induction fuel as [|fuel IH]; intros n c visited Hn Hend Hfuel.
  - rewrite seqZ_nil by lia. reflexivity.
  - cbn [BlockStatus_loop]. destruct (Z.ltb_spec n end_) as [Hlt|Hge].
    + rewrite (seqZ_cons n (end_ - n)) by lia. cbn [scan].
      rewrite BlockStatus_body_eq.
      destruct (body_counters api n c) as [c'| |]; try reflexivity.
      rewrite u64_small by lia. rewrite IH by lia.
      f_equal. f_equal. unfold Z.succ, Z.pred. lia.
    + rewrite seqZ_nil by lia. reflexivity.
Qed.

(** Any fuel that covers the distance to [end_] gives the same run. *)
Lemma BlockStatus_loop_enough_fuel (api : API) (end_ : Z) (fuel fuel' : nat) :
  forall (n : Z) (c : counters) (visited : list Z),
    0 <= n -> end_ < 2 ^ 64 ->
    end_ - n <= Z.of_nat fuel -> end_ - n <= Z.of_nat fuel' ->
    BlockStatus_loop fuel api n end_ c visited
    = BlockStatus_loop fuel' api n end_ c visited.
Proof.
  intros n c visited Hn Hend Hfuel Hfuel'.
  rewrite !BlockStatus_loop_scan by lia. reflexivity.
Qed.

Lemma BlockStatus_scan (api : API) (header : Header) (snap : Snapshot) :
  CurrentHeader (chain api) = Some header ->
  snapshot (pbft api) (chain api) (big_Uint64 (Number header)) (Header_Hash header) = Ok snap ->
  BlockStatus api =
    let N := big_Uint64 (Number header) in
    (fst (scan api (window_blocks N) (start_counters snap) []),
     match snd (scan api (window_blocks N) (start_counters snap) []) with
     | Ok c => Ok (report N c)
     | Err err => Err err
     | Panic => Panic
     end).
Proof.
  intros Hhead Hsnap. unfold BlockStatus. rewrite Hhead, Hsnap. cbv zeta.
  pose proof (big_Uint64_range (Number header)) as HN.
  set (N := big_Uint64 (Number header)) in *.
  unfold window_blocks, window_start, report, reported_blocks.
  rewrite Z.gtb_ltb.
  destruct (Z.ltb_spec N 64) as [Hlt|Hge].
  - rewrite BlockStatus_loop_scan by lia. fold (start_counters snap).
    destruct (scan api (seqZ 1 (N - 1)) (start_counters snap) []) as [v r].
    reflexivity.
  - rewrite (u64_small (N - 64)) by lia.
    rewrite BlockStatus_loop_scan by lia. fold (start_counters snap).
    replace (N - (N - 64)) with 64 by lia.
    destruct (scan api (seqZ (N - 64) 64) (start_counters snap) []) as [v r].
    reflexivity.
Qed.

(** ** What a scan visits and counts *)

Lemma scan_visited_prefix (api : API) (ns : list Z) :
  forall c visited visited' r,
    scan api ns c visited = (visited', r) ->
    exists ns1, ns1 `prefix_of` ns /\ visited' = visited ++ ns1.
Proof.
  induction ns as [|n ns IH]; intros c visited visited' r Hscan; cbn in Hscan.
  - inversion Hscan; subst. exists []. split; [done|]. by rewrite app_nil_r.
  - destruct (body_counters api n c) as [c'| |].
    + destruct (IH _ _ _ _ Hscan) as (ns1 & Hpre & ->).
      exists (n :: ns1). split; [by apply prefix_cons|]. by rewrite <- app_assoc.
    + inversion Hscan; subst. exists [n]. split; [|done].
      apply prefix_cons, prefix_nil.
    + inversion Hscan; subst. exists [n]. split; [|done].
      apply prefix_cons, prefix_nil.
Qed.

Lemma body_ok_sealer (api : API) (n : Z) (c c' : counters) :
  body_counters api n c = Ok c' ->
  exists a, sealer_at api n = Some a /\
    optimals c' = (if inturn_at api n then wrap_int (optimals c + 1) else optimals c) /\
    signStatus c' = incr_count a (signStatus c).
Proof.
  rewrite body_counters_eq. unfold sealer_at, inturn_at.
  destruct (GetHeaderByNumber (chain api) n) as [h|]; [|discriminate].
  destruct (Author (pbft api) h) as [a| |]; try discriminate.
  intros [= <-]. exists a. cbn. auto.
Qed.

Lemma body_total (api : API) (n : Z) (c : counters) :
  is_Some (sealer_at api n) -> exists c', body_counters api n c = Ok c'.
Proof.
  rewrite body_counters_eq. unfold sealer_at. intros [a Ha].
  destruct (GetHeaderByNumber (chain api) n) as [h|]; [|discriminate].
  destruct (Author (pbft api) h) as [a'| |]; try discriminate. eauto.
Qed.

Lemma scan_ok (api : API) (ns : list Z) :
  forall c visited visited' c',
    scan api ns c visited = (visited', Ok c') ->
    visited' = visited ++ ns /\ Forall (fun n => is_Some (sealer_at api n)) ns.
Proof.
  induction ns as [|n ns IH]; intros c visited visited' c' Hscan; cbn in Hscan.
  - inversion Hscan; subst. split; [by rewrite app_nil_r|constructor].
  - destruct (body_counters api n c) as [c1| |] eqn:Hbody; try discriminate.
    destruct (IH _ _ _ _ Hscan) as [-> Hall].
    split; [by rewrite <- app_assoc|].
    constructor; [|done].
    destruct (body_ok_sealer _ _ _ _ Hbody) as (a & Ha & _). eauto.
Qed.

Lemma scan_total (api : API) (ns : list Z) :
  forall c visited,
    Forall (fun n => is_Some (sealer_at api n)) ns ->
    exists c', scan api ns c visited = (visited ++ ns, Ok c').
Proof.
  induction ns as [|n ns IH]; intros c visited Hall; cbn.
  - exists c. by rewrite app_nil_r.
  - inversion Hall as [|? ? Hn Hns]; subst.
    destruct (body_total api n c Hn) as [c1 ->].
    destruct (IH c1 (visited ++ [n]) Hns) as [c' ->].
    exists c'. by rewrite <- app_assoc.
Qed.

Lemma scan_missing (api : API) (ns1 ns2 : list Z) (n : Z) :
  forall c visited,
    Forall (fun n => is_Some (sealer_at api n)) ns1 ->
    GetHeaderByNumber (chain api) n = None ->
    scan api (ns1 ++ n :: ns2) c visited
    = (visited ++ ns1 ++ [n], Err (errMissingBlock n)).
Proof.
  induction ns1 as [|m ns1 IH]; intros c visited Hall Hmiss; cbn.
  - rewrite body_counters_eq. by rewrite Hmiss.
  - inversion Hall as [|? ? Hm Hns]; subst.
    destruct (body_total api m c Hm) as [c1 ->].
    rewrite IH by done. by rewrite <- app_assoc.
Qed.

Lemma count_inturn_cons (api : API) (n : Z) (ns : list Z) :
  count_inturn api (n :: ns)
  = (if inturn_at api n then 1 else 0) + count_inturn api ns.
Proof.
  unfold count_inturn. rewrite filter_cons.
  destruct (inturn_at api n); cbn.
  - case_decide; [|done]. cbn [length]. lia.
  - case_decide; [done|]. lia.
Qed.

Lemma count_inturn_bounds (api : API) (ns : list Z) :
  0 <= count_inturn api ns <= Z.of_nat (length ns).
Proof.
  unfold count_inturn. pose proof (length_filter (fun n => inturn_at api n = true) ns). lia.
Qed.

Lemma scan_ok_optimals (api : API) (ns : list Z) :
  forall c visited visited' c',
    0 <= optimals c -> optimals c + Z.of_nat (length ns) < 2 ^ 63 ->
    scan api ns c visited = (visited', Ok c') ->
    optimals c' = optimals c + count_inturn api ns.
Proof.
  induction ns as [|n ns IH]; intros c visited visited' c' Hlo Hhi Hscan; cbn in Hscan.
  - inversion Hscan; subst. unfold count_inturn. cbn. lia.
  - destruct (body_counters api n c) as [c1| |] eqn:Hbody; try discriminate.
    destruct (body_ok_sealer _ _ _ _ Hbody) as (a & _ & Hopt & _).
    cbn [length] in Hhi. rewrite count_inturn_cons.
    assert (optimals c1 = optimals c + (if inturn_at api n then 1 else 0)) as Hc1.
    { rewrite Hopt. destruct (inturn_at api n); [|lia]. apply wrap_int_small. lia. }
    rewrite (IH c1 (visited ++ [n]) visited' c'); [| | |exact Hscan];
      destruct (inturn_at api n); lia.
Qed.

(** ** Resolving the block a query is about *)

Lemma GetValidatorsByNumber_resolve (api : API) (number : option Z) :
  GetValidatorsByNumber api number =
    match resolve_number api number with
    | None => Err errUnknownBlock
    | Some header => validators_at api header
    end.
Proof. reflexivity. Qed.

Lemma GetBlockStatusByNumber_resolve (api : API) (number : option Z) :
  GetBlockStatusByNumber api number =
    match resolve_number api number with
    | None => Err errUnknownBlock
    | Some header => snapshot_at api header
    end.
Proof. reflexivity. Qed.

Lemma resolve_number_latest (api : API) (number : option Z) :
  number = None \/ number = Some LatestBlockNumber ->
  resolve_number api number = CurrentHeader (chain api).
Proof.
  intros [-> | ->]; cbn; [done|]. by rewrite Z.eqb_refl.
Qed.

Lemma resolve_number_other (api : API) (n : Z) :
  n <> LatestBlockNumber ->
  resolve_number api (Some n) = GetHeaderByNumber (chain api) (u64 n).
Proof. intros Hn. cbn. by apply Z.eqb_neq in Hn as ->. Qed.

(** C2: in the four query operations a nil or latest number stands for
    the current head (the answer is the one computed from the current
    header), and a number or hash with no header makes the operation
    return [errUnknownBlock] and nothing else. *)
Theorem unknown_block_queries (api : API) :
  (forall number, number = None \/ number = Some LatestBlockNumber ->
     GetValidatorsByNumber api number =
       match CurrentHeader (chain api) with
       | Some head => validators_at api head
       | None => Err errUnknownBlock
       end /\
     GetBlockStatusByNumber api number =
       match CurrentHeader (chain api) with
       | Some head => snapshot_at api head
       | None => Err errUnknownBlock
       end) /\
  (forall n, n <> LatestBlockNumber ->
     GetHeaderByNumber (chain api) (u64 n) = None ->
     GetValidatorsByNumber api (Some n) = Err errUnknownBlock /\
     GetBlockStatusByNumber api (Some n) = Err errUnknownBlock) /\
  (forall hash, GetHeaderByHash (chain api) hash = None ->
     GetValidatorsByHash api hash = Err errUnknownBlock /\
     GetBlockStatusByHash api hash = Err errUnknownBlock).
Proof.
  split; [|split].
  - intros number Hlatest.
    rewrite GetValidatorsByNumber_resolve, GetBlockStatusByNumber_resolve.
    rewrite (resolve_number_latest api number Hlatest).
    by destruct (CurrentHeader (chain api)).
  - intros n Hn Hmiss.
    rewrite GetValidatorsByNumber_resolve, GetBlockStatusByNumber_resolve.
    rewrite (resolve_number_other api n Hn), Hmiss. done.
  - intros hash Hmiss. unfold GetValidatorsByHash, GetBlockStatusByHash.
    rewrite Hmiss. done.
Qed.

(** C4: when the snapshot of the resolved header cannot be produced, each
    of the five operations returns the store's error as it is, with no
    result; [BlockStatus] has then looked at no block. *)
Theorem snapshot_error_propagates (api : API) (header : Header) (err : error) :
  snapshot_at api header = Err err ->
  (forall number, resolve_number api number = Some header ->
     GetValidatorsByNumber api number = Err err /\
     GetBlockStatusByNumber api number = Err err) /\
  (forall hash, GetHeaderByHash (chain api) hash = Some header ->
     GetValidatorsByHash api hash = Err err /\
     GetBlockStatusByHash api hash = Err err) /\
  (CurrentHeader (chain api) = Some header -> BlockStatus api = ([], Err err)).
Proof.
  intros Hsnap. split; [|split].
  - intros number Hres.
    rewrite GetValidatorsByNumber_resolve, GetBlockStatusByNumber_resolve, Hres.
    unfold validators_at. by rewrite Hsnap.
  - intros hash Hres. unfold GetValidatorsByHash, GetBlockStatusByHash.
    rewrite Hres. fold (snapshot_at api header). by rewrite Hsnap.
  - intros Hhead. unfold BlockStatus. rewrite Hhead.
    fold (snapshot_at api header). by rewrite Hsnap.
Qed.

(** ** The window of [BlockStatus] *)

Lemma window_blocks_full (N : Z) : 64 <= N -> window_blocks N = seqZ (N - 64) 64.
Proof.
  intros HN. unfold window_blocks, window_start.
  destruct (Z.ltb_spec N 64); [lia|]. f_equal. lia.
Qed.

Lemma window_blocks_short (N : Z) : N < 64 -> window_blocks N = seqZ 1 (N - 1).
Proof.
  intros HN. unfold window_blocks, window_start.
  destruct (Z.ltb_spec N 64); [done|lia].
Qed.

Lemma window_blocks_length (N : Z) : 0 <= N -> (length (window_blocks N) <= 64)%nat.
Proof.
  intros HN. unfold window_blocks, window_start. rewrite length_seqZ.
  destruct (Z.ltb_spec N 64); lia.
Qed.

Lemma BlockStatus_visited_prefix (api : API) (header : Header) :
  CurrentHeader (chain api) = Some header ->
  fst (BlockStatus api) `prefix_of` window_blocks (big_Uint64 (Number header)).
Proof.
  intros Hhead.
  destruct (snapshot_at api header) as [snap|err|] eqn:Hsnap.
  - rewrite (BlockStatus_scan api header snap Hhead Hsnap). cbn.
    destruct (scan api (window_blocks (big_Uint64 (Number header)))
                (start_counters snap) []) as [v r] eqn:Hscan.
    destruct (scan_visited_prefix _ _ _ _ _ _ Hscan) as (ns1 & Hpre & ->). done.
  - unfold BlockStatus. rewrite Hhead. fold (snapshot_at api header).
    rewrite Hsnap. apply prefix_nil.
  - unfold BlockStatus. rewrite Hhead. fold (snapshot_at api header).
    rewrite Hsnap. apply prefix_nil.
Qed.

Lemma BlockStatus_ok_inv (api : API) (header : Header) (visited : list Z) (st : status) :
  CurrentHeader (chain api) = Some header ->
  BlockStatus api = (visited, Ok st) ->
  exists snap c,
    snapshot_at api header = Ok snap /\
    scan api (window_blocks (big_Uint64 (Number header))) (start_counters snap) []
      = (visited, Ok c) /\
    st = report (big_Uint64 (Number header)) c.
Proof.
  intros Hhead Hrun.
  destruct (snapshot_at api header) as [snap|err|] eqn:Hsnap.
  - rewrite (BlockStatus_scan api header snap Hhead Hsnap) in Hrun. cbn in Hrun.
    destruct (scan api (window_blocks (big_Uint64 (Number header)))
                (start_counters snap) []) as [v [c|e|]] eqn:Hscan;
      cbn in Hrun; try discriminate.
    inversion Hrun; subst. by exists snap, c.
  - unfold BlockStatus in Hrun. rewrite Hhead in Hrun.
    fold (snapshot_at api header) in Hrun. rewrite Hsnap in Hrun. discriminate.
  - unfold BlockStatus in Hrun. rewrite Hhead in Hrun.
    fold (snapshot_at api header) in Hrun. rewrite Hsnap in Hrun. discriminate.
Qed.

Lemma BlockStatus_ok_visited (api : API) (header : Header) (st : status) :
  CurrentHeader (chain api) = Some header ->
  snd (BlockStatus api) = Ok st ->
  fst (BlockStatus api) = window_blocks (big_Uint64 (Number header)) /\
  NumBlocks st = reported_blocks (big_Uint64 (Number header)).
Proof.
  intros Hhead Hok.
  destruct (BlockStatus api) as [visited r] eqn:Hrun. cbn in Hok. subst r.
  destruct (BlockStatus_ok_inv _ _ _ _ Hhead Hrun) as (snap & c & _ & Hscan & ->).
  destruct (scan_ok _ _ _ _ _ _ Hscan) as [-> _]. done.
Qed.

Lemma BlockStatus_total (api : API) (header : Header) (snap : Snapshot) :
  CurrentHeader (chain api) = Some header ->
  snapshot_at api header = Ok snap ->
  Forall (fun n => is_Some (sealer_at api n)) (window_blocks (big_Uint64 (Number header))) ->
  exists c, BlockStatus api =
    (window_blocks (big_Uint64 (Number header)), Ok (report (big_Uint64 (Number header)) c)).
Proof.
  intros Hhead Hsnap Hall.
  rewrite (BlockStatus_scan api header snap Hhead Hsnap). cbv zeta.
  destruct (scan_total api _ (start_counters snap) [] Hall) as [c ->].
  exists c. done.
Qed.

(** ** Per-signer counts and missing headers *)

Lemma zero_counts_lookup (l : list Address) (a : Address) :
  zero_counts l !! a = if decide (a ∈ l) then Some 0 else None.
Proof.
  unfold zero_counts.
  assert (forall m : gmap N Z,
            foldl (fun m s => <[s := 0]> m) m l !! a
            = if decide (a ∈ l) then Some 0 else m !! a) as Hgen.
  { induction l as [|s l IH]; intros m; cbn [foldl].
    - case_decide as Hin; [by apply elem_of_nil in Hin|done].
    - rewrite IH. destruct (decide (a ∈ l)) as [Hl|Hl].
      + rewrite decide_True by (by right). done.
      + destruct (decide (a = s)) as [->|Hne].
        * rewrite decide_True by (by left). apply lookup_insert_eq.
        * rewrite lookup_insert_ne by done.
          rewrite decide_False; [done|].
          intros Hin. apply elem_of_cons in Hin as [?|?]; done. }
  rewrite Hgen. by case_decide.
Qed.

Lemma count_sealed_cons (api : API) (a : Address) (n : Z) (ns : list Z) :
  count_sealed api a (n :: ns)
  = (if decide (sealer_at api n = Some a) then 1 else 0) + count_sealed api a ns.
Proof.
  unfold count_sealed. rewrite filter_cons.
  case_decide; [cbn [length]|]; lia.
Qed.

Lemma count_sealed_nonneg (api : API) (a : Address) (ns : list Z) :
  0 <= count_sealed api a ns.
Proof. unfold count_sealed. lia. Qed.

Lemma scan_ok_counts (api : API) (ns : list Z) :
  forall c visited visited' c',
    (forall a, 0 <= default 0 (signStatus c !! a) /\
               default 0 (signStatus c !! a) + Z.of_nat (length ns) < 2 ^ 63) ->
    scan api ns c visited = (visited', Ok c') ->
    forall a, signStatus c' !! a = tallied (signStatus c !! a) (count_sealed api a ns).
Proof.
  induction ns as [|n ns IH]; intros c visited visited' c' Hb Hscan a; cbn in Hscan.
  - inversion Hscan; subst. done.
  - destruct (body_counters api n c) as [c1| |] eqn:Hbody; try discriminate.
    destruct (body_ok_sealer _ _ _ _ Hbody) as (a0 & Ha0 & _ & Hc1).
    assert (forall b, signStatus c1 !! b =
              if decide (a0 = b) then Some (default 0 (signStatus c !! b) + 1)
              else signStatus c !! b) as Hstep.
    { intros b. rewrite Hc1. unfold incr_count. destruct (decide (a0 = b)) as [->|Hne].
      - rewrite lookup_insert_eq. f_equal. apply wrap_int_small.
        specialize (Hb b). cbn [length] in Hb. lia.
      - by rewrite lookup_insert_ne. }
    rewrite (IH c1 (visited ++ [n]) visited' c'); [| |exact Hscan].
    + rewrite count_sealed_cons, Ha0, Hstep.
      pose proof (count_sealed_nonneg api a ns) as Hk.
      unfold tallied. destruct (decide (a0 = a)) as [->|Hne].
      * rewrite decide_True by done.
        destruct (Z.eqb_spec (count_sealed api a ns) 0) as [->|?];
          destruct (Z.eqb_spec (1 + count_sealed api a ns) 0); try lia;
          cbn; f_equal; lia.
      * rewrite decide_False by congruence. done.
    + intros b. rewrite Hstep. specialize (Hb b). cbn [length] in Hb.
      destruct (decide (a0 = b)); cbn; lia.
Qed.

Lemma BlockStatus_signer_counts (api : API) (header : Header)
    (visited : list Z) (st : status) :
  CurrentHeader (chain api) = Some header ->
  BlockStatus api = (visited, Ok st) ->
  exists snap, snapshot_at api header = Ok snap /\
    forall a, SigningStatus st !! a
              = tallied (if decide (a ∈ signers snap) then Some 0 else None)
                        (count_sealed api a visited).
Proof.
  intros Hhead Hrun.
  pose proof (big_Uint64_range (Number header)) as HNr.
  destruct (BlockStatus_ok_inv _ _ _ _ Hhead Hrun) as (snap & c & Hsnap & Hscan & ->).
  pose proof (window_blocks_length (big_Uint64 (Number header)) ltac:(lia)) as Hlen.
  exists snap. split; [exact Hsnap|]. intros a.
  destruct (scan_ok _ _ _ _ _ _ Hscan) as [Hv _]. cbn in Hv. subst visited.
  cbn [report SigningStatus].
  rewrite (scan_ok_counts api (window_blocks (big_Uint64 (Number header)))
             (start_counters snap) [] (window_blocks (big_Uint64 (Number header))) c);
    [| |exact Hscan].
  - cbn [start_counters signStatus]. by rewrite zero_counts_lookup.
  - intros b. cbn [start_counters signStatus]. rewrite zero_counts_lookup.
    case_decide; cbn; lia.
Qed.

Lemma BlockStatus_missing_fails (api : API) (header : Header) (n : Z) :
  CurrentHeader (chain api) = Some header ->
  n ∈ window_blocks (big_Uint64 (Number header)) ->
  GetHeaderByNumber (chain api) n = None ->
  forall st, snd (BlockStatus api) <> Ok st.
Proof.
  intros Hhead Hin Hmiss st Hok.
  destruct (BlockStatus api) as [visited r] eqn:Hrun. cbn in Hok. subst r.
  destruct (BlockStatus_ok_inv _ _ _ _ Hhead Hrun) as (snap & c & _ & Hscan & _).
  destruct (scan_ok _ _ _ _ _ _ Hscan) as [_ Hall].
  rewrite Forall_forall in Hall. destruct (Hall n Hin) as [a Ha].
  unfold sealer_at in Ha. by rewrite Hmiss in Ha.
Qed.

Lemma BlockStatus_first_missing (api : API) (header : Header) (snap : Snapshot) (n : Z) :
  CurrentHeader (chain api) = Some header ->
  snapshot_at api header = Ok snap ->
  let N := big_Uint64 (Number header) in
  window_start N <= n < N ->
  (forall m, window_start N <= m < n -> is_Some (sealer_at api m)) ->
  GetHeaderByNumber (chain api) n = None ->
  BlockStatus api
  = (seqZ (window_start N) (n - window_start N + 1), Err (errMissingBlock n)).
Proof.
  intros Hhead Hsnap N Hn Hbefore Hmiss.
  rewrite (BlockStatus_scan api header snap Hhead Hsnap). fold N. cbv zeta.
  assert (window_blocks N
          = seqZ (window_start N) (n - window_start N) ++ n :: seqZ (n + 1) (N - n - 1))
    as ->.
  { unfold window_blocks.
    replace (N - window_start N) with ((n - window_start N) + (N - n)) by lia.
    rewrite seqZ_app by lia. f_equal.
    replace (window_start N + (n - window_start N)) with n by lia.
    rewrite (seqZ_cons n) by lia. f_equal. }
  rewrite scan_missing; [|apply Forall_forall; intros m Hm;
                          apply elem_of_seqZ in Hm; apply Hbefore; lia|done].
  cbn. f_equal.
  replace (n - window_start N + 1) with ((n - window_start N) + 1) by lia.
  rewrite seqZ_app by lia. f_equal.
  replace (window_start N + (n - window_start N)) with n by lia. done.
Qed.

(** ** Further facts on the queries *)

(** The validator queries return the signers of the very snapshot the
    status queries return for the same argument, and fail as they fail. *)
Theorem validators_of_snapshot_query (api : API) :
  (forall number,
     GetValidatorsByNumber api number =
       match GetBlockStatusByNumber api number with
       | Ok snap => Ok (signers snap)
       | Err err => Err err
       | Panic => Panic
       end) /\
  (forall hash,
     GetValidatorsByHash api hash =
       match GetBlockStatusByHash api hash with
       | Ok snap => Ok (signers snap)
       | Err err => Err err
       | Panic => Panic
       end).
Proof.
  split.
  - intros number.
    rewrite GetValidatorsByNumber_resolve, GetBlockStatusByNumber_resolve.
    destruct (resolve_number api number); reflexivity.
  - intros hash. unfold GetValidatorsByHash, GetBlockStatusByHash.
    destruct (GetHeaderByHash (chain api) hash); reflexivity.
Qed.

(** X1: a negative block number other than the latest marker is not
    treated as a marker: it is converted to [uint64] and looked up as block
    2^64 + n, so the queries answer for that block or fail with
    [errUnknownBlock]. *)
Theorem negative_number_lookup (api : API) (n : Z) :
  - 2 ^ 63 <= n < 0 ->
  n <> LatestBlockNumber ->
  GetValidatorsByNumber api (Some n) =
    match GetHeaderByNumber (chain api) (2 ^ 64 + n) with
    | Some header => validators_at api header
    | None => Err errUnknownBlock
    end /\
  GetBlockStatusByNumber api (Some n) =
    match GetHeaderByNumber (chain api) (2 ^ 64 + n) with
    | Some header => snapshot_at api header
    | None => Err errUnknownBlock
    end.
Proof.
  intros Hn Hlatest.
  rewrite GetValidatorsByNumber_resolve, GetBlockStatusByNumber_resolve.
  rewrite (resolve_number_other api n Hlatest).
  assert (u64 n = 2 ^ 64 + n) as ->.
  { unfold u64. symmetry. apply (Z.mod_unique n (2 ^ 64) (-1)); lia. }
  done.
Qed.

(** ** The report, signer by signer *)

(** X2: in a returned status every signer of the head snapshot has a
    count, equal to the number of blocks read whose recovered author it
    is; an address outside the signer set has a count exactly when it
    authored one of the blocks read. *)
Theorem BlockStatus_counts_per_signer (api : API) (header : Header)
    (visited : list Z) (st : status) :
  CurrentHeader (chain api) = Some header ->
  BlockStatus api = (visited, Ok st) ->
  exists snap, snapshot_at api header = Ok snap /\
    forall a,
      (a ∈ signers snap ->
         SigningStatus st !! a = Some (count_sealed api a visited)) /\
      (a ∉ signers snap -> 0 < count_sealed api a visited ->
         SigningStatus st !! a = Some (count_sealed api a visited)) /\
      (a ∉ signers snap -> count_sealed api a visited = 0 ->
         SigningStatus st !! a = None).
Proof.
  intros Hhead Hrun.
  destruct (BlockStatus_signer_counts api header visited st Hhead Hrun)
    as (snap & Hsnap & Hcounts).
  exists snap. split; [exact Hsnap|]. intros a. rewrite Hcounts.
  pose proof (count_sealed_nonneg api a visited) as Hk. unfold tallied.
  split; [|split].
  - intros Hin. rewrite decide_True by done.
    destruct (Z.eqb_spec (count_sealed api a visited) 0) as [->|?]; [done|].
    cbn. reflexivity.
  - intros Hout Hpos. rewrite decide_False by done.
    destruct (Z.eqb_spec (count_sealed api a visited) 0); [lia|]. cbn. reflexivity.
  - intros Hout ->. by rewrite decide_False.
Qed.

Lemma total_count_insert (m : gmap N Z) (a : Address) (v : Z) :
  m !! a = None -> total_count (<[a := v]> m) = v + total_count m.
Proof.
  intros Ha. unfold total_count. apply map_fold_insert_L; [|done].
  intros. lia.
Qed.

Lemma total_count_replace (m : gmap N Z) (a : Address) (v : Z) :
  total_count (<[a := v]> m) = v - default 0 (m !! a) + total_count m.
Proof.
  destruct (m !! a) as [w|] eqn:Ha; cbn.
  - rewrite <- (insert_delete_eq m a v).
    rewrite <- (insert_delete_id m a w Ha) at 2.
    rewrite !total_count_insert by apply lookup_delete_eq. lia.
  - rewrite total_count_insert by done. lia.
Qed.

Lemma total_count_zero_counts (l : list Address) : total_count (zero_counts l) = 0.
Proof.
  assert (forall m : gmap N Z,
            (forall a v, m !! a = Some v -> v = 0) -> total_count m = 0) as Hzero.
  { intros m. induction m as [|a v m Ha IH] using map_ind; intros Hall.
    - reflexivity.
    - rewrite total_count_insert by done.
      rewrite (Hall a v) by apply lookup_insert_eq. rewrite IH; [done|].
      intros b w Hb. apply (Hall b). rewrite lookup_insert_ne; [done|congruence]. }
  apply Hzero. intros a v. rewrite zero_counts_lookup. case_decide; congruence.
Qed.

Lemma scan_ok_total (api : API) (ns : list Z) :
  forall c visited visited' c',
    (forall a, 0 <= default 0 (signStatus c !! a) /\
               default 0 (signStatus c !! a) + Z.of_nat (length ns) < 2 ^ 63) ->
    scan api ns c visited = (visited', Ok c') ->
    total_count (signStatus c') = total_count (signStatus c) + Z.of_nat (length ns).
Proof.
  induction ns as [|n ns IH]; intros c visited visited' c' Hb Hscan; cbn in Hscan.
  - inversion Hscan; subst. cbn. lia.
  - destruct (body_counters api n c) as [c1| |] eqn:Hbody; try discriminate.
    destruct (body_ok_sealer _ _ _ _ Hbody) as (a0 & _ & _ & Hc1).
    assert (wrap_int (default 0 (signStatus c !! a0) + 1)
            = default 0 (signStatus c !! a0) + 1) as Hwrap.
    { apply wrap_int_small. specialize (Hb a0). cbn [length] in Hb. lia. }
    rewrite (IH c1 (visited ++ [n]) visited' c'); [| |exact Hscan].
    + rewrite Hc1. unfold incr_count. rewrite total_count_replace, Hwrap.
      cbn [length]. lia.
    + intros b. rewrite Hc1. unfold incr_count. specialize (Hb b). cbn [length] in Hb.
      destruct (decide (a0 = b)) as [->|Hne].
      * rewrite lookup_insert_eq, Hwrap. cbn. lia.
      * rewrite lookup_insert_ne by done. lia.
Qed.

(** X3: the counts of a returned status add up to the number of blocks
    read: every block read is credited to exactly one address. *)
Theorem BlockStatus_counts_total (api : API) (header : Header)
    (visited : list Z) (st : status) :
  CurrentHeader (chain api) = Some header ->
  BlockStatus api = (visited, Ok st) ->
  total_count (SigningStatus st) = Z.of_nat (length visited).
Proof.
  intros Hhead Hrun.
  pose proof (big_Uint64_range (Number header)) as HNr.
  destruct (BlockStatus_ok_inv _ _ _ _ Hhead Hrun) as (snap & c & Hsnap & Hscan & ->).
  pose proof (window_blocks_length (big_Uint64 (Number header)) ltac:(lia)) as Hlen.
  destruct (scan_ok _ _ _ _ _ _ Hscan) as [Hv _]. cbn in Hv. subst visited.
  cbn [report SigningStatus].
  rewrite (scan_ok_total api (window_blocks (big_Uint64 (Number header)))
             (start_counters snap) [] (window_blocks (big_Uint64 (Number header))) c);
    [| |exact Hscan].
  - cbn [start_counters signStatus]. rewrite total_count_zero_counts. lia.
  - intros b. cbn [start_counters signStatus]. rewrite zero_counts_lookup.
    case_decide; cbn; lia.
Qed.

(** ** The first block that cannot be evaluated *)

Lemma scan_author_fails (api : API) (ns1 ns2 : list Z) (n : Z) (h : Header) (r : result Address) :
  forall c visited,
    Forall (fun n => is_Some (sealer_at api n)) ns1 ->
    GetHeaderByNumber (chain api) n = Some h ->
    Author (pbft api) h = r ->
    (forall a, r <> Ok a) ->
    scan api (ns1 ++ n :: ns2) c visited
    = (visited ++ ns1 ++ [n],
       match r with Ok _ => Panic | Err err => Err err | Panic => Panic end).
Proof.
  induction ns1 as [|m ns1 IH]; intros c visited Hall Hh Hr Hbad; cbn.
  - rewrite body_counters_eq. rewrite Hh, Hr.
    destruct r as [a|err|]; [by destruct (Hbad a)|done|done].
  - inversion Hall as [|? ? Hm Hns]; subst.
    destruct (body_total api m c Hm) as [c1 ->].
    rewrite (IH c1 (visited ++ [m])) by done. by rewrite <- app_assoc.
Qed.

(** X4: when the snapshot resolves and block [n] of the window is the
    first with no header, [BlockStatus] returns the error "missing block
    n", having looked up the window from its start up to [n] and nothing
    beyond. *)
Theorem BlockStatus_stops_at_missing (api : API) (header : Header) (snap : Snapshot) (n : Z) :
  CurrentHeader (chain api) = Some header ->
  snapshot_at api header = Ok snap ->
  window_start (big_Uint64 (Number header)) <= n < big_Uint64 (Number header) ->
  (forall m, window_start (big_Uint64 (Number header)) <= m < n ->
     is_Some (sealer_at api m)) ->
  GetHeaderByNumber (chain api) n = None ->
  BlockStatus api
  = (seqZ (window_start (big_Uint64 (Number header)))
          (n - window_start (big_Uint64 (Number header)) + 1),
     Err (errMissingBlock n)).
Proof.
  intros Hhead Hsnap Hn Hbefore Hmiss.
  exact (BlockStatus_first_missing api header snap n Hhead Hsnap Hn Hbefore Hmiss).
Qed.

(** X5: when the snapshot resolves and block [n] of the window is the
    first whose author cannot be recovered, [BlockStatus] returns the
    recovery error as it is, having looked up the window up to [n]; the
    blocks after [n] are not read, present or not. *)
Theorem BlockStatus_stops_at_bad_author (api : API) (header : Header) (snap : Snapshot)
    (n : Z) (h : Header) (err : error) :
  CurrentHeader (chain api) = Some header ->
  snapshot_at api header = Ok snap ->
  window_start (big_Uint64 (Number header)) <= n < big_Uint64 (Number header) ->
  (forall m, window_start (big_Uint64 (Number header)) <= m < n ->
     is_Some (sealer_at api m)) ->
  GetHeaderByNumber (chain api) n = Some h ->
  Author (pbft api) h = Err err ->
  BlockStatus api
  = (seqZ (window_start (big_Uint64 (Number header)))
          (n - window_start (big_Uint64 (Number header)) + 1),
     Err err).
Proof.
  intros Hhead Hsnap Hn Hbefore Hh Herr.
  rewrite (BlockStatus_scan api header snap Hhead Hsnap). cbv zeta.
  set (N := big_Uint64 (Number header)) in *.
  assert (window_blocks N
          = seqZ (window_start N) (n - window_start N) ++ n :: seqZ (n + 1) (N - n - 1))
    as ->.
  { unfold window_blocks.
    replace (N - window_start N) with ((n - window_start N) + (N - n)) by lia.
    rewrite seqZ_app by lia. f_equal.
    replace (window_start N + (n - window_start N)) with n by lia.
    rewrite (seqZ_cons n) by lia. f_equal. }
  rewrite (scan_author_fails api _ _ n h (Err err));
    [|apply Forall_forall; intros m Hm; apply elem_of_seqZ in Hm; apply Hbefore; lia
     |done|done|discriminate].
  cbn. f_equal.
  replace (n - window_start N + 1) with ((n - window_start N) + 1) by lia.
  rewrite seqZ_app by lia. f_equal.
  replace (window_start N + (n - window_start N)) with n by lia. done.
Qed.

(** ** The in-turn percentage as a number *)

Lemma BlockStatus_ok_percent (api : API) (header : Header)
    (visited : list Z) (st : status) :
  CurrentHeader (chain api) = Some header ->
  1 <= big_Uint64 (Number header) ->
  BlockStatus api = (visited, Ok st) ->
  Z.of_nat (length visited) = big_Uint64 (Number header) - window_start (big_Uint64 (Number header)) /\
  NumBlocks st = Z.of_nat (length visited) /\
  InturnPercent st = percent (count_inturn api visited) (Z.of_nat (length visited)).
Proof.
  intros Hhead HN Hrun.
  pose proof (big_Uint64_range (Number header)) as HNr.
  destruct (BlockStatus_ok_inv _ _ _ _ Hhead Hrun) as (snap & c & _ & Hscan & ->).
  pose proof (window_blocks_length (big_Uint64 (Number header)) ltac:(lia)) as Hlen.
  destruct (scan_ok _ _ _ _ _ _ Hscan) as [Hv _]. cbn in Hv. subst visited.
  assert (optimals c = count_inturn api (window_blocks (big_Uint64 (Number header)))) as Hopt.
  { rewrite (scan_ok_optimals api (window_blocks (big_Uint64 (Number header)))
               (start_counters snap) [] (window_blocks (big_Uint64 (Number header))) c);
      [| | |exact Hscan]; cbn [start_counters optimals]; lia. }
  pose proof (count_inturn_bounds api (window_blocks (big_Uint64 (Number header)))) as Hc.
  set (N := big_Uint64 (Number header)) in *.
  assert (reported_blocks N = Z.of_nat (length (window_blocks N)) /\
          Z.of_nat (length (window_blocks N)) = N - window_start N) as [Hrep Hwin].
  { unfold reported_blocks, window_blocks, window_start. rewrite length_seqZ.
    destruct (Z.ltb_spec N 64).
    - rewrite u64_small by lia. lia.
    - lia. }
  cbn [report NumBlocks InturnPercent]. split; [exact Hwin|]. split; [exact Hrep|].
  unfold percent. rewrite Hopt, wrap_int_small, Hrep by lia. done.
Qed.

Lemma percent_ok_upto_64 (k n : Z) : 1 <= n <= 64 -> 0 <= k <= n -> percent_ok k n = true.
Proof.
  intros Hn Hk.
  assert (forallb (fun n => forallb (fun k => percent_ok k n) (seqZ 0 (n + 1))) (seqZ 1 64)
          = true) as Hall by (vm_compute; reflexivity).
  rewrite forallb_forall in Hall.
  assert (In n (seqZ 1 64)) as Hin.
  { apply list_elem_of_In, elem_of_seqZ. lia. }
  specialize (Hall n Hin). rewrite forallb_forall in Hall.
  apply Hall. apply list_elem_of_In, elem_of_seqZ. lia.
Qed.

(** X6: a status returned for a head numbered 2 or more carries an
    in-turn percentage that is an ordinary number between 0 and 100; it is
    100 exactly when every block read is in turn and 0 exactly when none
    is. *)
Theorem BlockStatus_percent_range (api : API) (header : Header)
    (visited : list Z) (st : status) :
  CurrentHeader (chain api) = Some header ->
  2 <= big_Uint64 (Number header) ->
  BlockStatus api = (visited, Ok st) ->
  SFleb (S754_zero false) (InturnPercent st) = true /\
  SFleb (InturnPercent st) (float64_of_Z 100) = true /\
  (SFeqb (InturnPercent st) (float64_of_Z 100) = true <->
     count_inturn api visited = Z.of_nat (length visited)) /\
  (SFeqb (InturnPercent st) (S754_zero false) = true <-> count_inturn api visited = 0).
Proof.
  intros Hhead HN Hrun.
  pose proof (big_Uint64_range (Number header)) as HNr.
  destruct (BlockStatus_ok_percent api header visited st Hhead ltac:(lia) Hrun)
    as (Hlen & _ & ->).
  pose proof (count_inturn_bounds api visited) as Hk.
  assert (1 <= Z.of_nat (length visited) <= 64) as Hn.
  { rewrite Hlen. unfold window_start. destruct (Z.ltb_spec (big_Uint64 (Number header)) 64); lia. }
  pose proof (percent_ok_upto_64 _ _ Hn Hk) as Hok.
  unfold percent_ok in Hok.
  apply andb_prop in Hok as [Hok H0]. apply andb_prop in Hok as [Hok H100].
  apply andb_prop in Hok as [Hlo Hhi].
  apply Bool.eqb_prop in H100, H0.
  split; [exact Hlo|]. split; [exact Hhi|]. split.
  - rewrite H100. apply Z.eqb_eq.
  - rewrite H0. apply Z.eqb_eq.
Qed.

(** X7: with a head numbered 1 the window is empty: when the snapshot
    resolves, [BlockStatus] reads no block and returns a status that
    reports 0 blocks and the percentage 0/0, which is not a number. *)
Theorem BlockStatus_head_one_nan (api : API) (header : Header) (snap : Snapshot) :
  CurrentHeader (chain api) = Some header ->
  big_Uint64 (Number header) = 1 ->
  snapshot_at api header = Ok snap ->
  exists st, BlockStatus api = ([], Ok st) /\
    NumBlocks st = 0 /\ InturnPercent st = S754_nan /\
    SigningStatus st = zero_counts (signers snap).
Proof.
  intros Hhead HN Hsnap.
  rewrite (BlockStatus_scan api header snap Hhead Hsnap). rewrite HN.
  cbn. eexists. split; [reflexivity|]. split; [reflexivity|]. split; reflexivity.
Qed.

(** ** The window and the report made from it *)

Lemma sealer_at_inv (api : API) (n : Z) :
  is_Some (sealer_at api n) ->
  exists h a, GetHeaderByNumber (chain api) n = Some h /\ Author (pbft api) h = Ok a.
Proof.
  unfold sealer_at. intros [a Ha].
  destruct (GetHeaderByNumber (chain api) n) as [h|] eqn:Hh; [|discriminate].
  destruct (Author (pbft api) h) as [a'| |] eqn:Ha'; try discriminate.
  exists h, a'. split; [reflexivity|exact Ha'].
Qed.

Lemma body_counters_agree (api api' : API) (n : Z) (c : counters) :
  pbft api' = pbft api ->
  GetHeaderByNumber (chain api') n = GetHeaderByNumber (chain api) n ->
  body_counters api' n c = body_counters api n c.
Proof. intros Hp Hh. rewrite !body_counters_eq, Hp, Hh. reflexivity. Qed.

Lemma scan_agree (api api' : API) (ns : list Z) :
  pbft api' = pbft api ->
  (forall n, n ∈ ns -> GetHeaderByNumber (chain api') n = GetHeaderByNumber (chain api) n) ->
  forall c visited, scan api' ns c visited = scan api ns c visited.
Proof.
  intros Hp. induction ns as [|n ns IH]; intros Hh c visited; cbn [scan]; [done|].
  rewrite (body_counters_agree api api' n c Hp) by (apply Hh; left).
  destruct (body_counters api n c); [|done|done].
  apply IH. intros m Hm. apply Hh. by right.
Qed.

(** Two chains with the same head, the same snapshot for it and the same
    headers inside the window give the same run, whatever they hold
    elsewhere. *)
Lemma BlockStatus_window_only (api api' : API) (header : Header) :
  CurrentHeader (chain api) = Some header ->
  CurrentHeader (chain api') = Some header ->
  pbft api' = pbft api ->
  snapshot_at api' header = snapshot_at api header ->
  (forall n, n ∈ window_blocks (big_Uint64 (Number header)) ->
     GetHeaderByNumber (chain api') n = GetHeaderByNumber (chain api) n) ->
  BlockStatus api' = BlockStatus api.
Proof.
  intros Hhead Hhead' Hp Hs Hh.
  destruct (snapshot_at api header) as [snap|err|] eqn:Hsnap.
  - rewrite (BlockStatus_scan api header snap Hhead Hsnap).
    rewrite (BlockStatus_scan api' header snap Hhead' Hs). cbv zeta.
    rewrite (scan_agree api api' _ Hp Hh). reflexivity.
  - unfold BlockStatus. rewrite Hhead, Hhead'.
    fold (snapshot_at api header) (snapshot_at api' header). by rewrite Hs, Hsnap.
  - unfold BlockStatus. rewrite Hhead, Hhead'.
    fold (snapshot_at api header) (snapshot_at api' header). by rewrite Hs, Hsnap.
Qed.

(** A returned status was made from the headers of the whole window: each
    is there with a recoverable author, and the percentage and the counts
    are those of these headers. *)
Lemma BlockStatus_status_from_window (api : API) (header : Header) (st : status) :
  CurrentHeader (chain api) = Some header ->
  1 <= big_Uint64 (Number header) ->
  snd (BlockStatus api) = Ok st ->
  (forall n, n ∈ window_blocks (big_Uint64 (Number header)) ->
     exists h a, GetHeaderByNumber (chain api) n = Some h /\ Author (pbft api) h = Ok a) /\
  InturnPercent st =
    percent (count_inturn api (window_blocks (big_Uint64 (Number header))))
            (Z.of_nat (length (window_blocks (big_Uint64 (Number header))))) /\
  exists snap, snapshot_at api header = Ok snap /\
    forall a, SigningStatus st !! a
              = tallied (if decide (a ∈ signers snap) then Some 0 else None)
                        (count_sealed api a (window_blocks (big_Uint64 (Number header)))).
Proof.
  intros Hhead HN Hok.
  destruct (BlockStatus api) as [visited r] eqn:Hrun. cbn in Hok. subst r.
  destruct (BlockStatus_ok_inv _ _ _ _ Hhead Hrun) as (snap & c & _ & Hscan & _).
  destruct (scan_ok _ _ _ _ _ _ Hscan) as [Hv Hall]. cbn in Hv. subst visited.
  split; [|split].
  - intros n Hn. apply sealer_at_inv. rewrite Forall_forall in Hall. by apply Hall.
  - by destruct (BlockStatus_ok_percent api header _ st Hhead HN Hrun) as (_ & _ & ->).
  - exact (BlockStatus_signer_counts api header _ st Hhead Hrun).
Qed.

(** C8: with a head numbered N >= 64, the header lookups of [BlockStatus]
    ask for block numbers N-64, N-63, ... in order and never for N or
    anything outside N-64..N-1.  A returned status has looked up exactly
    N-64..N-1 and reports 64 blocks; each of those headers was there with
    a recoverable author, and the percentage and the per-signer counts it
    carries are computed from these 64 headers; with one of them missing
    no status is returned.  A status is returned when the snapshot
    resolves and each of those blocks is there with a recoverable author.
    The headers outside N-64..N-1, the head's among them, have no
    influence on the run. *)
Theorem BlockStatus_window_full (api : API) (header : Header) :
  CurrentHeader (chain api) = Some header ->
  64 <= big_Uint64 (Number header) ->
  let top := big_Uint64 (Number header) in
  fst (BlockStatus api) `prefix_of` seqZ (top - 64) 64 /\
  (top ∉ fst (BlockStatus api)) /\
  (forall st, snd (BlockStatus api) = Ok st ->
     fst (BlockStatus api) = seqZ (top - 64) 64 /\ NumBlocks st = 64) /\
  (forall snap, snapshot_at api header = Ok snap ->
     (forall n, top - 64 <= n < top -> is_Some (sealer_at api n)) ->
     exists st, BlockStatus api = (seqZ (top - 64) 64, Ok st) /\ NumBlocks st = 64) /\
  (forall st, snd (BlockStatus api) = Ok st ->
     (forall n, top - 64 <= n < top ->
        exists h a, GetHeaderByNumber (chain api) n = Some h /\
                    Author (pbft api) h = Ok a) /\
     InturnPercent st = percent (count_inturn api (seqZ (top - 64) 64)) 64 /\
     exists snap, snapshot_at api header = Ok snap /\
       forall a, SigningStatus st !! a
                 = tallied (if decide (a ∈ signers snap) then Some 0 else None)
                           (count_sealed api a (seqZ (top - 64) 64))) /\
  (forall n, top - 64 <= n < top -> GetHeaderByNumber (chain api) n = None ->
     forall st, snd (BlockStatus api) <> Ok st) /\
  (forall api', CurrentHeader (chain api') = Some header ->
     pbft api' = pbft api ->
     snapshot_at api' header = snapshot_at api header ->
     (forall n, top - 64 <= n < top ->
        GetHeaderByNumber (chain api') n = GetHeaderByNumber (chain api) n) ->
     BlockStatus api' = BlockStatus api).
Proof.
  intros Hhead HN N.
  pose proof (BlockStatus_visited_prefix api header Hhead) as Hpre.
  fold N in Hpre. rewrite (window_blocks_full N HN) in Hpre.
  assert (reported_blocks N = 64) as Hrep.
  { unfold reported_blocks. destruct (Z.ltb_spec N 64); [lia|done]. }
  split; [exact Hpre|]. split; [|split; [|split; [|split; [|split]]]].
  - intros Hin. destruct Hpre as [rest Hrest].
    assert (N ∈ seqZ (N - 64) 64) as Hbad.
    { rewrite Hrest. apply elem_of_app. by left. }
    apply elem_of_seqZ in Hbad. lia.
  - intros st Hok.
    destruct (BlockStatus_ok_visited api header st Hhead Hok) as [Hv Hn].
    fold N in Hv, Hn. rewrite (window_blocks_full N HN) in Hv. by rewrite Hn, Hrep.
  - intros snap Hsnap Hall.
    destruct (BlockStatus_total api header snap Hhead Hsnap) as [c Hrun].
    { fold N. rewrite (window_blocks_full N HN). apply Forall_forall.
      intros n Hn. apply elem_of_seqZ in Hn. apply Hall. lia. }
    fold N in Hrun. rewrite (window_blocks_full N HN) in Hrun.
    exists (report N c). split; [exact Hrun|exact Hrep].
  - intros st Hok.
    destruct (BlockStatus_status_from_window api header st Hhead ltac:(fold N; lia) Hok)
      as (Hall & Hpct & Hcounts).
    fold N in Hall, Hpct, Hcounts. rewrite (window_blocks_full N HN) in Hall, Hpct, Hcounts.
    replace (Z.of_nat (length (seqZ (N - 64) 64))) with 64 in Hpct
      by (rewrite length_seqZ; lia).
    split; [|split; [exact Hpct|exact Hcounts]].
    intros n Hn. apply Hall, elem_of_seqZ. lia.
  - intros n Hn Hmiss.
    apply (BlockStatus_missing_fails api header n Hhead); [|exact Hmiss].
    fold N. rewrite (window_blocks_full N HN). apply elem_of_seqZ. lia.
  - intros api' Hhead' Hp Hs Hh.
    apply (BlockStatus_window_only api api' header Hhead Hhead' Hp Hs).
    fold N. rewrite (window_blocks_full N HN).
    intros n Hn. apply elem_of_seqZ in Hn. apply Hh. lia.
Qed.

(** C9: with a head numbered N, 1 <= N <= 63, the header lookups ask for
    block numbers 1, 2, ... in order, never for 0 or N.  A returned status
    has looked up exactly 1..N-1 and reports N-1 blocks; each of those
    headers was there with a recoverable author, and the percentage and
    the per-signer counts it carries are computed from these N-1 headers;
    with one of them missing no status is returned.  A status is returned
    when the snapshot resolves and those blocks are there with recoverable
    authors.  The headers outside 1..N-1, the genesis and the head among
    them, have no influence on the run.  With N = 0 no block is looked up
    and, the snapshot resolved, the status reports 2^64-1 blocks and an
    in-turn percentage of zero. *)
Theorem BlockStatus_window_short (api : API) (header : Header) :
  CurrentHeader (chain api) = Some header ->
  let top := big_Uint64 (Number header) in
  (1 <= top <= 63 ->
     fst (BlockStatus api) `prefix_of` seqZ 1 (top - 1) /\
     (0 ∉ fst (BlockStatus api)) /\ (top ∉ fst (BlockStatus api)) /\
     (forall st, snd (BlockStatus api) = Ok st ->
        fst (BlockStatus api) = seqZ 1 (top - 1) /\ NumBlocks st = top - 1) /\
     (forall snap, snapshot_at api header = Ok snap ->
        (forall n, 1 <= n < top -> is_Some (sealer_at api n)) ->
        exists st, BlockStatus api = (seqZ 1 (top - 1), Ok st) /\ NumBlocks st = top - 1) /\
     (forall st, snd (BlockStatus api) = Ok st ->
        (forall n, 1 <= n < top ->
           exists h a, GetHeaderByNumber (chain api) n = Some h /\
                       Author (pbft api) h = Ok a) /\
        InturnPercent st = percent (count_inturn api (seqZ 1 (top - 1))) (top - 1) /\
        exists snap, snapshot_at api header = Ok snap /\
          forall a, SigningStatus st !! a
                    = tallied (if decide (a ∈ signers snap) then Some 0 else None)
                              (count_sealed api a (seqZ 1 (top - 1)))) /\
     (forall n, 1 <= n < top -> GetHeaderByNumber (chain api) n = None ->
        forall st, snd (BlockStatus api) <> Ok st) /\
     (forall api', CurrentHeader (chain api') = Some header ->
        pbft api' = pbft api ->
        snapshot_at api' header = snapshot_at api header ->
        (forall n, 1 <= n < top ->
           GetHeaderByNumber (chain api') n = GetHeaderByNumber (chain api) n) ->
        BlockStatus api' = BlockStatus api)) /\
  (top = 0 ->
     fst (BlockStatus api) = [] /\
     (forall snap, snapshot_at api header = Ok snap ->
        exists st, BlockStatus api = ([], Ok st) /\
          NumBlocks st = 2 ^ 64 - 1 /\ InturnPercent st = S754_zero false)).
Proof.
  intros Hhead N.
  pose proof (BlockStatus_visited_prefix api header Hhead) as Hpre. fold N in Hpre.
  split.
  - intros HN. rewrite (window_blocks_short N) in Hpre by lia.
    assert (reported_blocks N = N - 1) as Hrep.
    { unfold reported_blocks. destruct (Z.ltb_spec N 64); [|lia].
      apply u64_small. lia. }
    assert (forall x, x ∈ fst (BlockStatus api) -> 1 <= x < N) as Hrange.
    { intros x Hx. destruct Hpre as [rest Hrest].
      assert (x ∈ seqZ 1 (N - 1)) as Hin.
      { rewrite Hrest. apply elem_of_app. by left. }
      apply elem_of_seqZ in Hin. lia. }
    split; [exact Hpre|]. split; [|split; [|split; [|split; [|split; [|split]]]]].
    + intros H0. apply Hrange in H0. lia.
    + intros HNin. apply Hrange in HNin. lia.
    + intros st Hok.
      destruct (BlockStatus_ok_visited api header st Hhead Hok) as [Hv Hn].
      fold N in Hv, Hn. rewrite (window_blocks_short N) in Hv by lia.
      by rewrite Hn, Hrep.
    + intros snap Hsnap Hall.
      destruct (BlockStatus_total api header snap Hhead Hsnap) as [c Hrun].
      { fold N. rewrite (window_blocks_short N) by lia. apply Forall_forall.
        intros n Hn. apply elem_of_seqZ in Hn. apply Hall. lia. }
      fold N in Hrun. rewrite (window_blocks_short N) in Hrun by lia.
      exists (report N c). split; [exact Hrun|exact Hrep].
    + intros st Hok.
      destruct (BlockStatus_status_from_window api header st Hhead ltac:(fold N; lia) Hok)
        as (Hall & Hpct & Hcounts).
      fold N in Hall, Hpct, Hcounts.
      rewrite (window_blocks_short N) in Hall, Hpct, Hcounts by lia.
      replace (Z.of_nat (length (seqZ 1 (N - 1)))) with (N - 1) in Hpct
        by (rewrite length_seqZ; lia).
      split; [|split; [exact Hpct|exact Hcounts]].
      intros n Hn. apply Hall, elem_of_seqZ. lia.
    + intros n Hn Hmiss.
      apply (BlockStatus_missing_fails api header n Hhead); [|exact Hmiss].
      fold N. rewrite (window_blocks_short N) by lia. apply elem_of_seqZ. lia.
    + intros api' Hhead' Hp Hs Hh.
      apply (BlockStatus_window_only api api' header Hhead Hhead' Hp Hs).
      fold N. rewrite (window_blocks_short N) by lia.
      intros n Hn. apply elem_of_seqZ in Hn. apply Hh. lia.
  - intros HN. rewrite HN in Hpre. cbn in Hpre.
    split; [by apply prefix_nil_inv|].
    intros snap Hsnap.
    rewrite (BlockStatus_scan api header snap Hhead Hsnap). fold N. rewrite HN.
    cbn. eexists. split; [reflexivity|]. split; reflexivity.
Qed.



End Queries.

(* ===================================================================== *)
(** * 10. The queries on the sample chains *)
(* ===================================================================== *)

Local Abbreviation sBlockStatus :=
  (BlockStatus (list N) (fun l => l) sample_snapshot sample_Author sample_hash 2).
Local Abbreviation sGetValidatorsByNumber :=
  (GetValidatorsByNumber (list N) (fun l => l) sample_snapshot sample_hash (-1)).
Local Abbreviation sGetValidatorsByHash :=
  (GetValidatorsByHash (list N) (fun l => l) sample_snapshot sample_hash).
Local Abbreviation sGetBlockStatusByNumber :=
  (GetBlockStatusByNumber (list N) sample_snapshot sample_hash (-1)).
Local Abbreviation sGetBlockStatusByHash :=
  (GetBlockStatusByHash (list N) sample_snapshot sample_hash).

Lemma sample_sealer_at (head : Z) (difficulty : Z -> Z) (n : Z) :
  0 <= n <= head ->
  is_Some (sealer_at sample_Author (sample_api head difficulty) n).
Proof.
  intros Hn. unfold sealer_at, sample_api, sample_chain. cbn.
  destruct (Z.leb_spec 0 n); [|lia]. destruct (Z.leb_spec n head); [|lia].
  cbn. eauto.
Defined.

(** On a chain of the blocks 0..10: a nil number and the latest number
    give the validators at the head, block 11 and hash 99 are unknown. *)
Lemma unknown_block_queries_witness :
  sGetValidatorsByNumber (sample_api 10 (first_inturn 5)) None = Ok sample_signers /\
  sGetBlockStatusByNumber (sample_api 10 (first_inturn 5)) (Some (-1)) = Ok sample_signers /\
  sGetValidatorsByNumber (sample_api 10 (first_inturn 5)) (Some 11) = Err errUnknownBlock /\
  sGetBlockStatusByNumber (sample_api 10 (first_inturn 5)) (Some 11) = Err errUnknownBlock /\
  sGetValidatorsByHash (sample_api 10 (first_inturn 5)) 99%N = Err errUnknownBlock /\
  sGetBlockStatusByHash (sample_api 10 (first_inturn 5)) 99%N = Err errUnknownBlock.
Proof.
  destruct (unknown_block_queries (list N) (fun l => l) sample_snapshot sample_hash (-1)
              (sample_api 10 (first_inturn 5))) as (Hlatest & Hnumber & Hhash).
  destruct (Hlatest None (or_introl eq_refl)) as [Hv _].
  destruct (Hlatest (Some (-1)) (or_intror eq_refl)) as [_ Hs].
  destruct (Hnumber 11 ltac:(discriminate) eq_refl) as [Hv11 Hs11].
  destruct (Hhash 99%N eq_refl) as [Hv99 Hs99].
  exact (conj Hv (conj Hs (conj Hv11 (conj Hs11 (conj Hv99 Hs99))))).
Defined.

(** With a snapshot store that fails with engine error 7, every query on
    the chain 0..10 returns that error. *)
Lemma snapshot_error_propagates_witness :
  GetValidatorsByNumber (list N) (fun l => l) failing_snapshot sample_hash (-1)
    (sample_api 10 (first_inturn 5)) None = Err (errEngine 7) /\
  GetBlockStatusByNumber (list N) failing_snapshot sample_hash (-1)
    (sample_api 10 (first_inturn 5)) (Some 10) = Err (errEngine 7) /\
  GetValidatorsByHash (list N) (fun l => l) failing_snapshot sample_hash
    (sample_api 10 (first_inturn 5)) 10%N = Err (errEngine 7) /\
  GetBlockStatusByHash (list N) failing_snapshot sample_hash
    (sample_api 10 (first_inturn 5)) 10%N = Err (errEngine 7) /\
  BlockStatus (list N) (fun l => l) failing_snapshot sample_Author sample_hash 2
    (sample_api 10 (first_inturn 5)) = ([], Err (errEngine 7)).
Proof.
  destruct (snapshot_error_propagates (list N) (fun l => l) failing_snapshot sample_Author
              sample_hash 2 (-1) (sample_api 10 (first_inturn 5))
              (sample_header (first_inturn 5) sample_sealer 10) (errEngine 7) eq_refl)
    as (Hnumber & Hhash & Hstatus).
  destruct (Hnumber None eq_refl) as [Hv _].
  destruct (Hnumber (Some 10) eq_refl) as [_ Hs].
  destruct (Hhash 10%N eq_refl) as [Hvh Hsh].
  exact (conj Hv (conj Hs (conj Hvh (conj Hsh (Hstatus eq_refl))))).
Defined.

(** Head 70: the loop reads the blocks 6..69 and reports 64 blocks, with
    the percentage of the in-turn blocks among 6..69. *)
Lemma BlockStatus_window_full_witness :
  exists st, sBlockStatus (sample_api 70 (first_inturn 53)) = (seqZ 6 64, Ok st) /\
             NumBlocks st = 64 /\
             InturnPercent st =
               percent (count_inturn 2 (sample_api 70 (first_inturn 53)) (seqZ 6 64)) 64.
Proof.
  assert (64 <= big_Uint64 (Number (sample_header (first_inturn 53) sample_sealer 70)))
    as Hge by (vm_compute; discriminate).
  pose proof (BlockStatus_window_full (list N) (fun l => l) sample_snapshot sample_Author
                sample_hash 2 (sample_api 70 (first_inturn 53))
                (sample_header (first_inturn 53) sample_sealer 70) eq_refl Hge) as Hfull.
  cbv zeta in Hfull. destruct Hfull as (_ & _ & _ & Htotal & Hfrom & _).
  destruct (Htotal sample_signers eq_refl) as (st & Hrun & Hnum).
  { intros n Hn. apply sample_sealer_at.
    change (big_Uint64 (Number (sample_header (first_inturn 53) sample_sealer 70)))
      with 70 in Hn. lia. }
  assert (snd (sBlockStatus (sample_api 70 (first_inturn 53))) = Ok st) as Hok
    by (rewrite Hrun; reflexivity).
  destruct (Hfrom st Hok) as (_ & Hpct & _).
  exists st. exact (conj Hrun (conj Hnum Hpct)).
Defined.

(** Head 10: the loop reads the blocks 1..9 and reports 9 blocks, with
    the percentage of the in-turn blocks among 1..9.  Head 0: it reads
    nothing and reports 2^64-1 blocks. *)
Lemma BlockStatus_window_short_witness :
  (exists st, sBlockStatus (sample_api 10 (first_inturn 5)) = (seqZ 1 9, Ok st) /\
              NumBlocks st = 9 /\
              InturnPercent st =
                percent (count_inturn 2 (sample_api 10 (first_inturn 5)) (seqZ 1 9)) 9) /\
  (exists st, sBlockStatus (sample_api 0 (first_inturn 0)) = ([], Ok st) /\
              NumBlocks st = 18446744073709551615 /\
              InturnPercent st = S754_zero false).
Proof.
  split.
  - pose proof (BlockStatus_window_short (list N) (fun l => l) sample_snapshot sample_Author
                  sample_hash 2 (sample_api 10 (first_inturn 5))
                  (sample_header (first_inturn 5) sample_sealer 10) eq_refl) as Hshort.
    cbv zeta in Hshort. destruct Hshort as [Hshort _].
    assert (1 <= big_Uint64 (Number (sample_header (first_inturn 5) sample_sealer 10)) <= 63)
      as Hrange by (vm_compute; split; discriminate).
    destruct (Hshort Hrange) as (_ & _ & _ & _ & Htotal & Hfrom & _).
    destruct (Htotal sample_signers eq_refl) as (st & Hrun & Hnum).
    { intros n Hn. apply sample_sealer_at.
      change (big_Uint64 (Number (sample_header (first_inturn 5) sample_sealer 10)))
        with 10 in Hn. lia. }
    assert (snd (sBlockStatus (sample_api 10 (first_inturn 5))) = Ok st) as Hok
      by (rewrite Hrun; reflexivity).
    destruct (Hfrom st Hok) as (_ & Hpct & _).
    exists st. exact (conj Hrun (conj Hnum Hpct)).
  - pose proof (BlockStatus_window_short (list N) (fun l => l) sample_snapshot sample_Author
                  sample_hash 2 (sample_api 0 (first_inturn 0))
                  (sample_header (first_inturn 0) sample_sealer 0) eq_refl) as Hshort.
    cbv zeta in Hshort. destruct Hshort as [_ Hzero].
    destruct (Hzero eq_refl) as [_ Hrun].
    exact (Hrun sample_signers eq_refl).
Defined.


(** The value of that percentage, and what the loop does on the chain of
    the 64 blocks 0..63: it reads the 62 blocks 1..62. *)
Lemma sample_percentages :
  float64_div (float64_of_Z (100 * 53)) (float64_of_Z 64)
    = S754_finite false 5827411627212800 (-46) /\
  exists st, sBlockStatus (sample_api 63 (first_inturn 53)) = (seqZ 1 62, Ok st) /\
             NumBlocks st = 62.
Proof.
  split; [vm_compute; reflexivity|].
  eexists. split; [vm_compute; reflexivity|]. reflexivity.
Qed.

(** C1 (defect): on a chain that holds the genesis block alone,
    [BlockStatus] reads no block and still returns a status, whose block
    count is 2^64-1 and not the number of blocks read. *)
Theorem BlockStatus_genesis_only :
  exists st,
    sBlockStatus (sample_api 0 (first_inturn 0)) = ([], Ok st) /\
    NumBlocks st = 2 ^ 64 - 1 /\
    NumBlocks st <> Z.of_nat (length (fst (sBlockStatus (sample_api 0 (first_inturn 0))))).
Proof.
  eexists. split; [vm_compute; reflexivity|].
  split; [reflexivity|]. vm_compute. discriminate.
Qed.

(* ===================================================================== *)
(** * 11. The proposal table *)
(* ===================================================================== *)

Lemma proposals_at_inv (api : API) (h : heap) (P : table) :
  proposals_at api h P ->
  exists l, proposals (pbft api) = mapptr l /\ h !! l = Some P.
Proof.
  unfold proposals_at, deref. destruct (proposals (pbft api)) as [|l]; [discriminate|].
  eauto.
Qed.

Lemma Vote_heap (api : API) (h : heap) (l : positive) (P : table) (a : Address) (b : bool) :
  proposals (pbft api) = mapptr l -> h !! l = Some P ->
  Vote api a b h = Some (<[l := <[a := b]> P]> h).
Proof. intros Hl HP. unfold Vote, mapassign. by rewrite Hl, HP. Qed.

Lemma DropVote_heap (api : API) (h : heap) (l : positive) (P : table) (a : Address) :
  proposals (pbft api) = mapptr l -> h !! l = Some P ->
  DropVote api a h = <[l := delete a P]> h.
Proof. intros Hl HP. unfold DropVote, mapdelete. by rewrite Hl, HP. Qed.

(** C5: with the proposal table live and holding [P], [Vote a b] returns
    (it does not panic, and has no error to return) and leaves the table
    with [a] bound to [b] and every other entry as in [P]; [DropVote a]
    leaves it without [a] and every other entry as in [P]; both leave
    every other map on the heap as it was. *)
Theorem Vote_DropVote_entries (api : API) (h : heap) (P : table) (a : Address) (b : bool) :
  proposals_at api h P ->
  (exists h', Vote api a b h = Some h' /\
     proposals_at api h' (<[a := b]> P) /\
     <[a := b]> P !! a = Some b /\
     (forall a', a' <> a -> <[a := b]> P !! a' = P !! a') /\
     (forall l, mapptr l <> proposals (pbft api) -> h' !! l = h !! l)) /\
  (proposals_at api (DropVote api a h) (delete a P) /\
     delete a P !! a = None /\
     (forall a', a' <> a -> delete a P !! a' = P !! a') /\
     (forall l, mapptr l <> proposals (pbft api) -> DropVote api a h !! l = h !! l)).
Proof.
  intros HP. destruct (proposals_at_inv api h P HP) as (l & Hl & Hh).
  split.
  - exists (<[l := <[a := b]> P]> h). split; [by apply Vote_heap|].
    split; [unfold proposals_at; rewrite Hl; cbn; apply lookup_insert_eq|].
    split; [apply lookup_insert_eq|].
    split; [intros a' Ha'; by apply lookup_insert_ne|].
    intros l' Hl'. rewrite Hl in Hl'. apply lookup_insert_ne. congruence.
  - rewrite (DropVote_heap api h l P a Hl Hh).
    split; [unfold proposals_at; rewrite Hl; cbn; apply lookup_insert_eq|].
    split; [apply lookup_delete_eq|].
    split; [intros a' Ha'; by apply lookup_delete_ne|].
    intros l' Hl'. rewrite Hl in Hl'. apply lookup_insert_ne. congruence.
Qed.

(** C10: when [a] has no entry in the table [P], [Vote a b] followed by
    [DropVote a] gives back the heap it started from, so the table is [P]
    again; and [DropVote a] alone changes nothing. *)
Theorem Vote_then_DropVote (api : API) (h : heap) (P : table) (a : Address) (b : bool) :
  proposals_at api h P ->
  P !! a = None ->
  (exists h', Vote api a b h = Some h' /\
     DropVote api a h' = h /\ proposals_at api (DropVote api a h') P) /\
  (DropVote api a h = h /\ proposals_at api (DropVote api a h) P).
Proof.
  intros HP Ha. destruct (proposals_at_inv api h P HP) as (l & Hl & Hh).
  assert (DropVote api a (<[l := <[a := b]> P]> h) = h) as Hback.
  { rewrite (DropVote_heap api _ l (<[a := b]> P) a Hl) by apply lookup_insert_eq.
    rewrite insert_insert_eq, delete_insert_eq, delete_id by done. by apply insert_id. }
  assert (DropVote api a h = h) as Hdrop.
  { rewrite (DropVote_heap api h l P a Hl Hh).
    rewrite delete_id by done. by apply insert_id. }
  split.
  - exists (<[l := <[a := b]> P]> h). split; [by apply Vote_heap|].
    split; [exact Hback|]. by rewrite Hback.
  - split; [exact Hdrop|]. by rewrite Hdrop.
Qed.

(** ** Copying a table *)

Lemma range_copy_heap (l : positive) (entries : list (Address * bool)) :
  forall (h : heap) (t : table),
    h !! l = Some t ->
    range_copy (mapptr l) entries h
    = Some (<[l := foldl (fun m kv => <[kv.1 := kv.2]> m) t entries]> h).
Proof.
  induction entries as [|[k v] entries IH]; intros h t Ht; cbn.
  - by rewrite insert_id.
  - rewrite Ht. rewrite (IH _ (<[k := v]> t)) by apply lookup_insert_eq.
    by rewrite insert_insert_eq.
Qed.

Lemma foldl_insert_union (entries : list (Address * bool)) :
  forall t : table,
    NoDup entries.*1 ->
    foldl (fun m kv => <[kv.1 := kv.2]> m) t entries = list_to_map entries ∪ t.
Proof.
  induction entries as [|[k v] entries IH]; intros t Hnd; cbn.
  - by rewrite (left_id_L ∅ (∪)).
  - cbn in Hnd. apply NoDup_cons in Hnd as [Hk Hnd].
    rewrite IH by done.
    rewrite <- insert_union_l. symmetry. apply insert_union_r.
    by apply not_elem_of_list_to_map_1.
Qed.

Lemma foldl_insert_entries (P : table) (entries : list (Address * bool)) :
  entries ≡ₚ map_to_list P ->
  foldl (fun m kv => <[kv.1 := kv.2]> m) ∅ entries = P.
Proof.
  intros Hperm.
  assert (NoDup entries.*1) as Hnd.
  { rewrite Hperm. apply NoDup_fst_map_to_list. }
  rewrite foldl_insert_union by done. rewrite (right_id_L ∅ (∪)).
  rewrite (list_to_map_proper entries (map_to_list P)) by done.
  apply list_to_map_to_list.
Qed.

(** Whatever order the [range] visits the entries in, [Votes] puts a copy
    of the table in a fresh heap cell and leaves the rest of the heap. *)
Lemma Votes_in_order_heap (order : list (Address * bool) -> list (Address * bool))
    (api : API) (h : heap) (P : table) :
  (forall entries, order entries ≡ₚ entries) ->
  proposals_at api h P ->
  Votes_in_order order api h = Some (mapptr (fresh (dom h)), <[fresh (dom h) := P]> h).
Proof.
  intros Horder HP. destruct (proposals_at_inv api h P HP) as (l & Hl & Hh).
  pose proof (is_fresh (dom h)) as Hfresh. apply not_elem_of_dom in Hfresh.
  set (l' := fresh (dom h)) in *.
  assert (l <> l') as Hne by congruence.
  unfold Votes_in_order, make_map, mapentries. fold l'. rewrite Hl.
  rewrite lookup_insert_ne by done. rewrite Hh. cbn [default].
  rewrite (range_copy_heap l' _ _ ∅) by apply lookup_insert_eq.
  rewrite (foldl_insert_entries P) by apply Horder.
  by rewrite insert_insert_eq.
Qed.

Lemma mutate_elsewhere (l' : positive) (ws : list mutation) :
  forall (h : heap) (t : table),
    h !! l' = Some t ->
    exists h' t', mutate (mapptr l') ws h = Some h' /\ h' !! l' = Some t' /\
      forall l, l <> l' -> h' !! l = h !! l.
Proof.
  induction ws as [|[k v|k] ws IH]; intros h t Ht; cbn.
  - exists h, t. done.
  - rewrite Ht.
    destruct (IH (<[l' := <[k := v]> t]> h) (<[k := v]> t)) as (h' & t' & Hm & Ht' & Hfr);
      [apply lookup_insert_eq|].
    exists h', t'. split; [done|]. split; [done|].
    intros l Hl. rewrite Hfr by done. by apply lookup_insert_ne.
  - rewrite Ht.
    destruct (IH (<[l' := delete k t]> h) (delete k t)) as (h' & t' & Hm & Ht' & Hfr);
      [apply lookup_insert_eq|].
    exists h', t'. split; [done|]. split; [done|].
    intros l Hl. rewrite Hfr by done. by apply lookup_insert_ne.
Qed.

(** C6: with the proposal table live and holding [P], [Votes] returns a
    map in a heap cell that was free before the call and is not the
    engine's; that map holds exactly [P]; the call changes no other cell,
    so the table is still [P]; and every sequence of writes and deletes
    through the returned map succeeds and leaves the table at [P]. *)
Theorem Votes_returns_copy (api : API) (h : heap) (P : table) :
  proposals_at api h P ->
  exists l' h',
    Votes api h = Some (mapptr l', h') /\
    h !! l' = None /\
    mapptr l' <> proposals (pbft api) /\
    deref (mapptr l') h' = Some P /\
    (forall l, l <> l' -> h' !! l = h !! l) /\
    proposals_at api h' P /\
    (forall ws, exists h'',
       mutate (mapptr l') ws h' = Some h'' /\ proposals_at api h'' P).
Proof.
  intros HP. destruct (proposals_at_inv api h P HP) as (l & Hl & Hh).
  pose proof (is_fresh (dom h)) as Hfresh. apply not_elem_of_dom in Hfresh.
  exists (fresh (dom h)), (<[fresh (dom h) := P]> h).
  set (l' := fresh (dom h)) in *.
  assert (l <> l') as Hne by congruence.
  split; [by apply (Votes_in_order_heap (fun entries => entries))|].
  split; [done|]. split; [rewrite Hl; congruence|].
  split; [cbn; apply lookup_insert_eq|].
  split; [intros l0 Hl0; by apply lookup_insert_ne|].
  assert (<[l' := P]> h !! l = Some P) as Hkept by (by rewrite lookup_insert_ne).
  split; [unfold proposals_at; by rewrite Hl|].
  intros ws.
  destruct (mutate_elsewhere l' ws (<[l' := P]> h) P) as (h'' & t' & Hm & _ & Hfr);
    [apply lookup_insert_eq|].
  exists h''. split; [done|].
  unfold proposals_at. rewrite Hl. cbn. by rewrite Hfr.
Qed.

(** ** Further facts on the proposal table *)

(** X8: a second [Vote] on the same address overwrites the first, so two
    votes leave the heap that the last one alone would leave; and dropping
    a vote twice is dropping it once. *)
Theorem Vote_last_wins (api : API) (h : heap) (P : table) (a : Address) (b1 b2 : bool) :
  proposals_at api h P ->
  (exists h1 h2, Vote api a b1 h = Some h1 /\ Vote api a b2 h1 = Some h2 /\
                 Vote api a b2 h = Some h2) /\
  DropVote api a (DropVote api a h) = DropVote api a h.
Proof.
  intros HP. destruct (proposals_at_inv api h P HP) as (l & Hl & Hh). split.
  - exists (<[l := <[a := b1]> P]> h), (<[l := <[a := b2]> P]> h).
    split; [by apply Vote_heap|]. split; [|by apply Vote_heap].
    rewrite (Vote_heap api _ l (<[a := b1]> P)) by (done || apply lookup_insert_eq).
    by rewrite !insert_insert_eq.
  - rewrite (DropVote_heap api h l P a Hl Hh).
    rewrite (DropVote_heap api _ l (delete a P)) by (done || apply lookup_insert_eq).
    rewrite insert_insert_eq. f_equal. apply delete_id, lookup_delete_eq.
Qed.

(** X9: operations on two different addresses do not interfere: two
    votes, or a vote and a drop, leave the same heap in either order. *)
Theorem Vote_commutes (api : API) (h : heap) (P : table)
    (a1 a2 : Address) (b1 b2 : bool) :
  proposals_at api h P ->
  a1 <> a2 ->
  (exists h1 h2 h12,
     Vote api a1 b1 h = Some h1 /\ Vote api a2 b2 h = Some h2 /\
     Vote api a2 b2 h1 = Some h12 /\ Vote api a1 b1 h2 = Some h12) /\
  (exists h1, Vote api a1 b1 h = Some h1 /\
     Vote api a1 b1 (DropVote api a2 h) = Some (DropVote api a2 h1)).
Proof.
  intros HP Hne. destruct (proposals_at_inv api h P HP) as (l & Hl & Hh). split.
  - exists (<[l := <[a1 := b1]> P]> h), (<[l := <[a2 := b2]> P]> h),
      (<[l := <[a2 := b2]> (<[a1 := b1]> P)]> h).
    split; [by apply Vote_heap|]. split; [by apply Vote_heap|]. split.
    + rewrite (Vote_heap api _ l (<[a1 := b1]> P)) by (done || apply lookup_insert_eq).
      by rewrite insert_insert_eq.
    + rewrite (Vote_heap api _ l (<[a2 := b2]> P)) by (done || apply lookup_insert_eq).
      rewrite insert_insert_eq. f_equal. f_equal. by apply insert_insert_ne.
  - exists (<[l := <[a1 := b1]> P]> h). split; [by apply Vote_heap|].
    rewrite (DropVote_heap api h l P a2 Hl Hh).
    rewrite (Vote_heap api _ l (delete a2 P)) by (done || apply lookup_insert_eq).
    rewrite (DropVote_heap api _ l (<[a1 := b1]> P)) by (done || apply lookup_insert_eq).
    rewrite !insert_insert_eq. f_equal. f_equal.
    symmetry. by apply delete_insert_ne.
Qed.

(** X10: [DropVote] does not bring an earlier proposal back: when [a]
    already had an entry, [Vote a b] followed by [DropVote a] leaves the
    table without any entry for [a], which is not the table it started
    from. *)
Theorem Vote_DropVote_forgets (api : API) (h : heap) (P : table)
    (a : Address) (b0 b : bool) :
  proposals_at api h P ->
  P !! a = Some b0 ->
  exists h', Vote api a b h = Some h' /\
    proposals_at api (DropVote api a h') (delete a P) /\
    delete a P !! a = None /\
    DropVote api a h' <> h.
Proof.
  intros HP Ha. destruct (proposals_at_inv api h P HP) as (l & Hl & Hh).
  exists (<[l := <[a := b]> P]> h). split; [by apply Vote_heap|].
  rewrite (DropVote_heap api _ l (<[a := b]> P)) by (done || apply lookup_insert_eq).
  rewrite insert_insert_eq, delete_insert_eq.
  split; [unfold proposals_at; rewrite Hl; cbn; apply lookup_insert_eq|].
  split; [apply lookup_delete_eq|].
  intros Heq.
  assert (<[l := delete a P]> h !! l = Some P) as Hl' by (by rewrite Heq).
  rewrite lookup_insert_eq in Hl'. injection Hl' as HP'.
  assert (delete a P !! a = Some b0) as Hbad by (by rewrite HP').
  by rewrite lookup_delete_eq in Hbad.
Qed.

(** X11: what [Vote] and [DropVote] write is what [Votes] then reads:
    after [Vote a b] the returned map is the old table with [a] bound to
    [b], after [DropVote a] it is the old table without [a]. *)
Theorem Votes_reads_back (api : API) (h : heap) (P : table) (a : Address) (b : bool) :
  proposals_at api h P ->
  (exists h1 l' h2, Vote api a b h = Some h1 /\
     Votes api h1 = Some (mapptr l', h2) /\
     deref (mapptr l') h2 = Some (<[a := b]> P)) /\
  (exists l' h2, Votes api (DropVote api a h) = Some (mapptr l', h2) /\
     deref (mapptr l') h2 = Some (delete a P)).
Proof.
  intros HP. destruct (proposals_at_inv api h P HP) as (l & Hl & Hh). split.
  - set (h1 := <[l := <[a := b]> P]> h).
    assert (proposals_at api h1 (<[a := b]> P)) as HP1.
    { unfold proposals_at. rewrite Hl. cbn. apply lookup_insert_eq. }
    exists h1, (fresh (dom h1)), (<[fresh (dom h1) := <[a := b]> P]> h1).
    split; [by apply Vote_heap|].
    split; [by apply (Votes_in_order_heap (fun entries => entries))|].
    cbn. apply lookup_insert_eq.
  - set (h1 := DropVote api a h).
    assert (proposals_at api h1 (delete a P)) as HP1.
    { unfold proposals_at, h1. rewrite (DropVote_heap api h l P a Hl Hh), Hl. cbn.
      apply lookup_insert_eq. }
    exists (fresh (dom h1)), (<[fresh (dom h1) := delete a P]> h1).
    split; [by apply (Votes_in_order_heap (fun entries => entries))|].
    cbn. apply lookup_insert_eq.
Qed.

(** X12: two calls of [Votes] return two different maps, each holding the
    table; writes and deletes made through the first leave the second as
    it is. *)
Theorem Votes_twice_independent (api : API) (h : heap) (P : table) :
  proposals_at api h P ->
  exists l1 h1 l2 h2,
    Votes api h = Some (mapptr l1, h1) /\
    Votes api h1 = Some (mapptr l2, h2) /\
    l1 <> l2 /\
    deref (mapptr l1) h2 = Some P /\ deref (mapptr l2) h2 = Some P /\
    (forall ws, exists h3, mutate (mapptr l1) ws h2 = Some h3 /\
       deref (mapptr l2) h3 = Some P /\ proposals_at api h3 P).
Proof.
  intros HP. destruct (proposals_at_inv api h P HP) as (l & Hl & Hh).
  pose proof (is_fresh (dom h)) as Hf1. apply not_elem_of_dom in Hf1.
  set (l1 := fresh (dom h)) in *. set (h1 := <[l1 := P]> h).
  assert (l <> l1) as Hne1 by congruence.
  assert (proposals_at api h1 P) as HP1.
  { unfold proposals_at, h1. rewrite Hl. cbn. by rewrite lookup_insert_ne. }
  pose proof (is_fresh (dom h1)) as Hf2. apply not_elem_of_dom in Hf2.
  set (l2 := fresh (dom h1)) in *. set (h2 := <[l2 := P]> h1).
  assert (l1 <> l2) as Hne12.
  { intros Heq. rewrite <- Heq in Hf2. unfold h1 in Hf2.
    by rewrite lookup_insert_eq in Hf2. }
  assert (l <> l2) as Hne2.
  { intros Heq. rewrite <- Heq in Hf2. unfold h1 in Hf2.
    rewrite lookup_insert_ne in Hf2 by done. congruence. }
  exists l1, h1, l2, h2.
  split; [by apply (Votes_in_order_heap (fun entries => entries))|].
  split; [by apply (Votes_in_order_heap (fun entries => entries))|].
  split; [done|].
  assert (h2 !! l1 = Some P) as H1.
  { unfold h2, h1. rewrite lookup_insert_ne by done. apply lookup_insert_eq. }
  split; [exact H1|]. split; [cbn; apply lookup_insert_eq|].
  intros ws. destruct (mutate_elsewhere l1 ws h2 P H1) as (h3 & t' & Hm & _ & Hfr).
  exists h3. split; [done|]. split.
  - cbn. rewrite Hfr by done. apply lookup_insert_eq.
  - unfold proposals_at. rewrite Hl. cbn. rewrite Hfr by done.
    unfold h2, h1. by rewrite !lookup_insert_ne.
Qed.

(** X13: the map [Votes] returns does not depend on the order in which
    the [range] over the proposal table visits its entries. *)
Theorem Votes_order_irrelevant (order : list (Address * bool) -> list (Address * bool))
    (api : API) (h : heap) (P : table) :
  (forall entries, order entries ≡ₚ entries) ->
  proposals_at api h P ->
  Votes_in_order order api h = Votes api h /\
  Votes api h = Some (mapptr (fresh (dom h)), <[fresh (dom h) := P]> h).
Proof.
  intros Horder HP.
  rewrite (Votes_in_order_heap order api h P Horder HP).
  unfold Votes. by rewrite (Votes_in_order_heap (fun entries => entries) api h P).
Qed.

(** A vote for address 7 on the sample heap, whose table holds 5 and 9. *)
Lemma Vote_DropVote_entries_witness :
  (exists h', Vote (sample_api 10 (first_inturn 5)) 7%N true sample_heap = Some h' /\
     proposals_at (sample_api 10 (first_inturn 5)) h' (<[7%N := true]> sample_table)) /\
  proposals_at (sample_api 10 (first_inturn 5))
    (DropVote (sample_api 10 (first_inturn 5)) 5%N sample_heap) (delete 5%N sample_table).
Proof.
  destruct (Vote_DropVote_entries (sample_api 10 (first_inturn 5)) sample_heap sample_table
              7%N true eq_refl) as [(h' & Hvote & Hat & _) _].
  destruct (Vote_DropVote_entries (sample_api 10 (first_inturn 5)) sample_heap sample_table
              5%N true eq_refl) as [_ (Hdrop & _)].
  split; [exists h'; exact (conj Hvote Hat)|exact Hdrop].
Defined.

(** Address 7 has no entry in the sample table: voting for it and dropping
    the vote gives the sample heap back. *)
Lemma Vote_then_DropVote_witness :
  (exists h', Vote (sample_api 10 (first_inturn 5)) 7%N true sample_heap = Some h' /\
     DropVote (sample_api 10 (first_inturn 5)) 7%N h' = sample_heap) /\
  DropVote (sample_api 10 (first_inturn 5)) 7%N sample_heap = sample_heap.
Proof.
  destruct (Vote_then_DropVote (sample_api 10 (first_inturn 5)) sample_heap sample_table
              7%N true eq_refl eq_refl) as [(h' & Hvote & Hback & _) [Hdrop _]].
  split; [exists h'; exact (conj Hvote Hback)|exact Hdrop].
Defined.

(** On the sample heap [Votes] returns a map that holds the sample table,
    and overwriting and deleting entries through it leaves the engine's
    table alone. *)
Lemma Votes_returns_copy_witness :
  exists l' h' h'',
    Votes (sample_api 10 (first_inturn 5)) sample_heap = Some (mapptr l', h') /\
    deref (mapptr l') h' = Some sample_table /\
    mutate (mapptr l') [Assign 5%N false; Delete 9%N; Assign 7%N true] h' = Some h'' /\
    proposals_at (sample_api 10 (first_inturn 5)) h'' sample_table.
Proof.
  destruct (Votes_returns_copy (sample_api 10 (first_inturn 5)) sample_heap sample_table
              eq_refl) as (l' & h' & Hvotes & _ & _ & Hcopy & _ & _ & Hmut).
  destruct (Hmut [Assign 5%N false; Delete 9%N; Assign 7%N true]) as (h'' & Hm & Hat).
  exists l', h', h''. exact (conj Hvotes (conj Hcopy (conj Hm Hat))).
Defined.

(* ===================================================================== *)
(** * 12. Engine selection *)
(* ===================================================================== *)

(** C7: [CreateConsensusEngine] returns the Clique engine of the chain
    configuration when it has one; else the PBFT engine when it has one;
    else a proof-of-work engine picked by [PowMode] (faker, tester, shared,
    or the full engine with CPU mining off).  Which of the three families
    it returns depends on the chain configuration alone. *)
Theorem engine_selection (ModeFake ModeTest ModeShared : Z)
    (ctx : backend.ServiceContext) (chainConfig : backend.ChainConfig)
    (config : backend.Config) (notify : list string) (noverify : bool) (db : N) :
  let create := backend.CreateConsensusEngine ModeFake ModeTest ModeShared in
  let engine := snd (create ctx chainConfig config notify noverify db) in
  (forall clique, backend.Clique chainConfig = Some clique ->
     engine = backend.clique_New clique db) /\
  (forall pbft, backend.Clique chainConfig = None ->
     backend.Pbft chainConfig = Some pbft ->
     engine = backend.pbft_New pbft db) /\
  (backend.Clique chainConfig = None -> backend.Pbft chainConfig = None ->
     backend.family engine = backend.ProofOfWork /\
     (backend.PowMode config = ModeFake -> engine = backend.fstash_NewFaker) /\
     (backend.PowMode config <> ModeFake -> backend.PowMode config = ModeTest ->
        engine = backend.fstash_NewTester [] noverify) /\
     (backend.PowMode config <> ModeFake -> backend.PowMode config <> ModeTest ->
        backend.PowMode config = ModeShared -> engine = backend.fstash_NewShared) /\
     (backend.PowMode config <> ModeFake -> backend.PowMode config <> ModeTest ->
        backend.PowMode config <> ModeShared ->
        exists full, engine = backend.fstash_New full notify noverify (-1) /\
          backend.CacheDir full = backend.ResolvePath ctx (backend.CacheDir config))) /\
  (forall ctx' config' notify' noverify' db',
     backend.family (snd (create ctx' chainConfig config' notify' noverify' db'))
     = backend.family engine).
Proof.
  intros create engine. subst create engine. unfold backend.CreateConsensusEngine.
  split; [|split; [|split]].
  - intros clique ->. reflexivity.
  - intros pbft -> ->. reflexivity.
  - intros -> ->.
    destruct (Z.eqb_spec (backend.PowMode config) ModeFake) as [Hf|Hf];
      [|destruct (Z.eqb_spec (backend.PowMode config) ModeTest) as [Ht|Ht];
        [|destruct (Z.eqb_spec (backend.PowMode config) ModeShared) as [Hs|Hs]]];
      cbn; (split; [reflexivity|]); repeat split; intros; try congruence.
    eexists. split; reflexivity.
  - intros ctx' config' notify' noverify' db'.
    destruct (backend.Clique chainConfig); [reflexivity|].
    destruct (backend.Pbft chainConfig); [reflexivity|].
    destruct (backend.PowMode config' =? ModeFake), (backend.PowMode config' =? ModeTest),
      (backend.PowMode config' =? ModeShared), (backend.PowMode config =? ModeFake),
      (backend.PowMode config =? ModeTest), (backend.PowMode config =? ModeShared);
      reflexivity.
Qed.

(** A chain configured for PBFT gets the PBFT engine whatever the
    proof-of-work mode says; one configured for neither gets the tester
    in test mode. *)
Lemma engine_selection_witness :
  snd (backend.CreateConsensusEngine 3 2 1 sample_ctx sample_pbft_chain sample_pow_config
         [] false 0%N)
  = backend.pbft_New {| backend.pbft_Period := 15; backend.pbft_Epoch := 30000 |} 0%N /\
  snd (backend.CreateConsensusEngine 3 2 1 sample_ctx sample_pow_chain sample_pow_config
         [] false 0%N)
  = backend.fstash_NewTester [] false.
Proof.
  pose proof (engine_selection 3 2 1 sample_ctx sample_pbft_chain sample_pow_config
                [] false 0%N) as Hpbft.
  pose proof (engine_selection 3 2 1 sample_ctx sample_pow_chain sample_pow_config
                [] false 0%N) as Hpow.
  cbv zeta in Hpbft, Hpow.
  destruct Hpbft as (_ & Hp & _). destruct Hpow as (_ & _ & Hw & _).
  destruct (Hw eq_refl eq_refl) as (_ & _ & Htest & _).
  split; [exact (Hp _ eq_refl eq_refl)|].
  apply Htest; [discriminate|reflexivity].
Defined.

(* ===================================================================== *)
(** * 13. Further facts on the sample chains *)
(* ===================================================================== *)

(** The pending marker -2 on the chain 0..10 names block 2^64-2, which
    the chain does not have. *)
Lemma negative_number_lookup_witness :
  sGetValidatorsByNumber (sample_api 10 (first_inturn 5)) (Some (-2)) = Err errUnknownBlock /\
  sGetBlockStatusByNumber (sample_api 10 (first_inturn 5)) (Some (-2)) = Err errUnknownBlock.
Proof.
  assert (- 2 ^ 63 <= -2 < 0) as Hrange by (vm_compute; split; [discriminate|reflexivity]).
  exact (negative_number_lookup (list N) (fun l => l) sample_snapshot sample_hash (-1)
           (sample_api 10 (first_inturn 5)) (-2) Hrange ltac:(discriminate)).
Defined.

(** Head 10: the blocks 1..9 are read; the signers 1, 2, 3 sealed three
    each, address 4 none. *)
Lemma BlockStatus_counts_per_signer_witness :
  exists st, sBlockStatus (sample_api 10 (first_inturn 5)) = (seqZ 1 9, Ok st) /\
    SigningStatus st !! 1%N = Some 3 /\ SigningStatus st !! 2%N = Some 3 /\
    SigningStatus st !! 3%N = Some 3 /\ SigningStatus st !! 4%N = None.
Proof.
  destruct (sBlockStatus (sample_api 10 (first_inturn 5))) as [visited [st| |]] eqn:Hrun;
    try (vm_compute in Hrun; discriminate).
  assert (visited = seqZ 1 9) as ->.
  { vm_compute in Hrun. injection Hrun as <- _. reflexivity. }
  exists st. split; [reflexivity|].
  destruct (BlockStatus_counts_per_signer (list N) (fun l => l) sample_snapshot sample_Author
              sample_hash 2 (sample_api 10 (first_inturn 5))
              (sample_header (first_inturn 5) sample_sealer 10) (seqZ 1 9) st eq_refl Hrun)
    as (snap & Hsnap & Hcounts).
  injection Hsnap as <-.
  destruct (Hcounts 1%N) as [H1 _]. destruct (Hcounts 2%N) as [H2 _].
  destruct (Hcounts 3%N) as [H3 _]. destruct (Hcounts 4%N) as (_ & _ & H4).
  rewrite H1, H2, H3, H4.
  - split; [vm_compute; reflexivity|]. split; [vm_compute; reflexivity|].
    split; [vm_compute; reflexivity|reflexivity].
  - intros Hin. apply list_elem_of_In in Hin. cbn in Hin. intuition discriminate.
  - vm_compute. reflexivity.
  - apply list_elem_of_In. cbn. auto.
  - apply list_elem_of_In. cbn. auto.
  - apply list_elem_of_In. cbn. auto.
Defined.

(** Head 10: the counts add up to the 9 blocks read. *)
Lemma BlockStatus_counts_total_witness :
  exists st, sBlockStatus (sample_api 10 (first_inturn 5)) = (seqZ 1 9, Ok st) /\
    total_count (SigningStatus st) = 9.
Proof.
  destruct (sBlockStatus (sample_api 10 (first_inturn 5))) as [visited [st| |]] eqn:Hrun;
    try (vm_compute in Hrun; discriminate).
  assert (visited = seqZ 1 9) as ->.
  { vm_compute in Hrun. injection Hrun as <- _. reflexivity. }
  exists st. split; [reflexivity|].
  exact (BlockStatus_counts_total (list N) (fun l => l) sample_snapshot sample_Author
           sample_hash 2 (sample_api 10 (first_inturn 5))
           (sample_header (first_inturn 5) sample_sealer 10) (seqZ 1 9) st eq_refl Hrun).
Defined.

Lemma gap_sealer_at (head gap n : Z) :
  0 <= n <= head -> n <> gap ->
  is_Some (sealer_at sample_Author (gap_api head gap) n).
Proof.
  intros Hn Hgap. unfold sealer_at, gap_api, gap_chain. cbn.
  destruct (Z.leb_spec 0 n); [|lia]. destruct (Z.leb_spec n head); [|lia].
  destruct (Z.eqb_spec n gap); [lia|]. cbn. eauto.
Defined.

(** Head 10 with block 4 missing: the blocks 1..4 are looked up and the
    error names block 4. *)
Lemma BlockStatus_stops_at_missing_witness :
  BlockStatus (list N) (fun l => l) sample_snapshot sample_Author sample_hash 2 (gap_api 10 4)
  = ([1; 2; 3; 4], Err (errMissingBlock 4)).
Proof.
  assert (window_start (big_Uint64 (Number (sample_header (first_inturn 5) sample_sealer 10)))
          <= 4 < big_Uint64 (Number (sample_header (first_inturn 5) sample_sealer 10)))
    as Hn by (vm_compute; split; [discriminate|reflexivity]).
  apply (BlockStatus_stops_at_missing (list N) (fun l => l) sample_snapshot sample_Author
           sample_hash 2 (gap_api 10 4) (sample_header (first_inturn 5) sample_sealer 10)
           sample_signers 4 eq_refl eq_refl Hn); [|reflexivity].
  intros m Hm.
  change (window_start (big_Uint64 (Number (sample_header (first_inturn 5) sample_sealer 10))))
    with 1 in Hm.
  apply gap_sealer_at; lia.
Defined.

Lemma failing_sealer_at (head bad n : Z) :
  0 <= n <= head -> n <> bad ->
  is_Some (sealer_at (failing_Author bad) (sample_api head (first_inturn 5)) n).
Proof.
  intros Hn Hbad. unfold sealer_at, sample_api, sample_chain, failing_Author. cbn.
  destruct (Z.leb_spec 0 n); [|lia]. destruct (Z.leb_spec n head); [|lia].
  cbn. destruct (Z.eqb_spec n bad); [lia|]. eauto.
Defined.

(** Head 10 with an unrecoverable author at block 4: the blocks 1..4 are
    looked up and the recovery error comes back. *)
Lemma BlockStatus_stops_at_bad_author_witness :
  BlockStatus (list N) (fun l => l) sample_snapshot (failing_Author 4) sample_hash 2
    (sample_api 10 (first_inturn 5))
  = ([1; 2; 3; 4], Err (errEngine 3)).
Proof.
  assert (window_start (big_Uint64 (Number (sample_header (first_inturn 5) sample_sealer 10)))
          <= 4 < big_Uint64 (Number (sample_header (first_inturn 5) sample_sealer 10)))
    as Hn by (vm_compute; split; [discriminate|reflexivity]).
  apply (BlockStatus_stops_at_bad_author (list N) (fun l => l) sample_snapshot
           (failing_Author 4) sample_hash 2 (sample_api 10 (first_inturn 5))
           (sample_header (first_inturn 5) sample_sealer 10) sample_signers 4
           (sample_header (first_inturn 5) sample_sealer 4) (errEngine 3)
           eq_refl eq_refl Hn); [|reflexivity|reflexivity].
  intros m Hm.
  change (window_start (big_Uint64 (Number (sample_header (first_inturn 5) sample_sealer 10))))
    with 1 in Hm.
  apply failing_sealer_at; lia.
Defined.

(** Head 10 with the blocks 1..5 in turn: 5 of the 9 blocks read, a
    percentage strictly between 0 and 100. *)
Lemma BlockStatus_percent_range_witness :
  exists st, sBlockStatus (sample_api 10 (first_inturn 5)) = (seqZ 1 9, Ok st) /\
    SFleb (S754_zero false) (InturnPercent st) = true /\
    SFleb (InturnPercent st) (float64_of_Z 100) = true /\
    SFeqb (InturnPercent st) (float64_of_Z 100) = false.
Proof.
  destruct (sBlockStatus (sample_api 10 (first_inturn 5))) as [visited [st| |]] eqn:Hrun;
    try (vm_compute in Hrun; discriminate).
  assert (visited = seqZ 1 9) as ->.
  { vm_compute in Hrun. injection Hrun as <- _. reflexivity. }
  exists st. split; [reflexivity|].
  assert (2 <= big_Uint64 (Number (sample_header (first_inturn 5) sample_sealer 10)))
    as Hge by (vm_compute; discriminate).
  destruct (BlockStatus_percent_range (list N) (fun l => l) sample_snapshot sample_Author
              sample_hash 2 (sample_api 10 (first_inturn 5))
              (sample_header (first_inturn 5) sample_sealer 10) (seqZ 1 9) st eq_refl Hge Hrun)
    as (Hlo & Hhi & H100 & _).
  split; [exact Hlo|]. split; [exact Hhi|].
  destruct (SFeqb (InturnPercent st) (float64_of_Z 100)); [|reflexivity].
  destruct H100 as [Hall _]. specialize (Hall eq_refl). vm_compute in Hall. discriminate.
Defined.

(** Head 1: nothing is read and the percentage is not a number. *)
Lemma BlockStatus_head_one_nan_witness :
  exists st, sBlockStatus (sample_api 1 (first_inturn 1)) = ([], Ok st) /\
    NumBlocks st = 0 /\ InturnPercent st = S754_nan.
Proof.
  destruct (BlockStatus_head_one_nan (list N) (fun l => l) sample_snapshot sample_Author
              sample_hash 2 (sample_api 1 (first_inturn 1))
              (sample_header (first_inturn 1) sample_sealer 1) sample_signers
              eq_refl eq_refl eq_refl) as (st & Hrun & Hnum & Hnan & _).
  exists st. exact (conj Hrun (conj Hnum Hnan)).
Defined.

(** ** The proposal table of the sample heap *)

Lemma Vote_last_wins_witness :
  exists h1 h2,
    Vote (sample_api 10 (first_inturn 5)) 5%N false sample_heap = Some h1 /\
    Vote (sample_api 10 (first_inturn 5)) 5%N true h1 = Some h2 /\
    Vote (sample_api 10 (first_inturn 5)) 5%N true sample_heap = Some h2.
Proof.
  destruct (Vote_last_wins (sample_api 10 (first_inturn 5)) sample_heap sample_table
              5%N false true eq_refl) as [(h1 & h2 & H1 & H2 & H3) _].
  exists h1, h2. exact (conj H1 (conj H2 H3)).
Defined.

Lemma Vote_commutes_witness :
  exists h1 h2 h12,
    Vote (sample_api 10 (first_inturn 5)) 7%N true sample_heap = Some h1 /\
    Vote (sample_api 10 (first_inturn 5)) 8%N false sample_heap = Some h2 /\
    Vote (sample_api 10 (first_inturn 5)) 8%N false h1 = Some h12 /\
    Vote (sample_api 10 (first_inturn 5)) 7%N true h2 = Some h12.
Proof.
  destruct (Vote_commutes (sample_api 10 (first_inturn 5)) sample_heap sample_table
              7%N 8%N true false eq_refl ltac:(discriminate))
    as [(h1 & h2 & h12 & H1 & H2 & H3 & H4) _].
  exists h1, h2, h12. exact (conj H1 (conj H2 (conj H3 H4))).
Defined.

(** Address 5 is proposed with [true]; voting [false] and dropping the
    vote leaves no proposal for 5. *)
Lemma Vote_DropVote_forgets_witness :
  exists h', Vote (sample_api 10 (first_inturn 5)) 5%N false sample_heap = Some h' /\
    proposals_at (sample_api 10 (first_inturn 5))
      (DropVote (sample_api 10 (first_inturn 5)) 5%N h') (delete 5%N sample_table) /\
    DropVote (sample_api 10 (first_inturn 5)) 5%N h' <> sample_heap.
Proof.
  destruct (Vote_DropVote_forgets (sample_api 10 (first_inturn 5)) sample_heap sample_table
              5%N true false eq_refl eq_refl) as (h' & Hv & Hat & _ & Hne).
  exists h'. exact (conj Hv (conj Hat Hne)).
Defined.

Lemma Votes_reads_back_witness :
  exists h1 l' h2,
    Vote (sample_api 10 (first_inturn 5)) 7%N true sample_heap = Some h1 /\
    Votes (sample_api 10 (first_inturn 5)) h1 = Some (mapptr l', h2) /\
    deref (mapptr l') h2 = Some (<[7%N := true]> sample_table).
Proof.
  destruct (Votes_reads_back (sample_api 10 (first_inturn 5)) sample_heap sample_table
              7%N true eq_refl) as [(h1 & l' & h2 & H1 & H2 & H3) _].
  exists h1, l', h2. exact (conj H1 (conj H2 H3)).
Defined.

Lemma Votes_twice_independent_witness :
  exists l1 h1 l2 h2 h3,
    Votes (sample_api 10 (first_inturn 5)) sample_heap = Some (mapptr l1, h1) /\
    Votes (sample_api 10 (first_inturn 5)) h1 = Some (mapptr l2, h2) /\
    l1 <> l2 /\
    mutate (mapptr l1) [Delete 5%N; Assign 9%N true] h2 = Some h3 /\
    deref (mapptr l2) h3 = Some sample_table.
Proof.
  destruct (Votes_twice_independent (sample_api 10 (first_inturn 5)) sample_heap sample_table
              eq_refl) as (l1 & h1 & l2 & h2 & H1 & H2 & Hne & _ & _ & Hmut).
  destruct (Hmut [Delete 5%N; Assign 9%N true]) as (h3 & Hm & H3 & _).
  exists l1, h1, l2, h2, h3. exact (conj H1 (conj H2 (conj Hne (conj Hm H3)))).
Defined.

(** Visiting the entries in reverse order gives the same map. *)
Lemma Votes_order_irrelevant_witness :
  Votes_in_order (@reverse (N * bool)) (sample_api 10 (first_inturn 5)) sample_heap
  = Votes (sample_api 10 (first_inturn 5)) sample_heap.
Proof.
  destruct (Votes_order_irrelevant (@reverse (N * bool)) (sample_api 10 (first_inturn 5))
              sample_heap sample_table (fun entries => reverse_Permutation entries) eq_refl)
    as [Hsame _].
  exact Hsame.
Defined.

(* ===================================================================== *)
(** * 14. The node service *)
(* ===================================================================== *)

(** X14: the extra data [makeExtraData] returns is never longer than the
    limit, whatever the caller and the default provide. *)
Theorem makeExtraData_within_limit (default_extra : list N) (MaximumExtraDataSize : Z)
    (extra : list N) :
  0 <= MaximumExtraDataSize ->
  Z.of_nat (length (fst.makeExtraData default_extra MaximumExtraDataSize extra))
  <= MaximumExtraDataSize.
Proof.
  intros Hmax. unfold fst.makeExtraData.
  destruct (Z.eqb_spec (Z.of_nat (length extra)) 0);
    match goal with
    | |- context [?x >? ?y] => destruct (Z.gtb_spec x y)
    end; cbn [length]; lia.
Qed.

(** X15: data within the limit is passed on as it is; data over the limit
    is dropped, leaving empty data: it is not cut to size and the default
    does not take its place.  The default is used for empty data only, so
    giving the result back to [makeExtraData] turns dropped data into the
    default. *)
Theorem makeExtraData_drops_oversized (default_extra : list N) (MaximumExtraDataSize : Z)
    (extra : list N) :
  0 <= MaximumExtraDataSize ->
  let make := fst.makeExtraData default_extra MaximumExtraDataSize in
  (extra <> [] -> Z.of_nat (length extra) <= MaximumExtraDataSize -> make extra = extra) /\
  (MaximumExtraDataSize < Z.of_nat (length extra) ->
     make extra = [] /\
     (Z.of_nat (length default_extra) <= MaximumExtraDataSize ->
        make (make extra) = default_extra)) /\
  (extra = [] -> Z.of_nat (length default_extra) <= MaximumExtraDataSize ->
     make extra = default_extra).
Proof.
  intros Hmax make. subst make. unfold fst.makeExtraData.
  assert (forall l : list N, Z.of_nat (length l) <= MaximumExtraDataSize ->
            (Z.of_nat (length l) >? MaximumExtraDataSize) = false) as Hfits.
  { intros l Hl. destruct (Z.gtb_spec (Z.of_nat (length l)) MaximumExtraDataSize); [lia|done]. }
  split; [|split].
  - intros Hne Hlen. destruct extra as [|x extra]; [done|].
    assert ((Z.of_nat (length (x :: extra)) =? 0) = false) as ->
      by (apply Z.eqb_neq; cbn [length]; lia).
    by rewrite Hfits.
  - intros Hlen.
    assert ((Z.of_nat (length extra) =? 0) = false) as -> by (apply Z.eqb_neq; lia).
    assert ((Z.of_nat (length extra) >? MaximumExtraDataSize) = true) as ->
      by (apply Z.gtb_lt; lia).
    split; [done|]. intros Hdef. cbn. by rewrite Hfits.
  - intros -> Hdef. cbn. by rewrite Hfits.
Qed.

Lemma is_local_account_elem (locals : list Address) (author : Address) :
  fst.is_local_account locals author = true <-> author ∈ locals.
Proof.
  induction locals as [|account locals IH]; cbn.
  - split; [discriminate|]. intros Hin. by apply elem_of_nil in Hin.
  - destruct (N.eqb_spec account author) as [->|Hne].
    + split; [intros _; by left|done].
    + rewrite IH. split; [by right|].
      intros Hin. apply elem_of_cons in Hin as [?|?]; [congruence|done].
Qed.

(** X16: [isLocalBlock] holds exactly when the engine recovers the
    block's author and that author is the stormbase or one of the
    transaction pool's local accounts; a block whose author cannot be
    recovered is never local. *)
Theorem isLocalBlock_iff (engine_Author : backend.Engine -> Header -> option Address)
    (s : fst.Filestorm) (block : Header) :
  fst.isLocalBlock engine_Author s block = true <->
  exists author, engine_Author (fst.engine s) block = Some author /\
    (author = fst.stormbase s \/ author ∈ fst.TxPool_Locals (fst.config s)).
Proof.
  unfold fst.isLocalBlock.
  destruct (engine_Author (fst.engine s) block) as [author|].
  - destruct (N.eqb_spec author (fst.stormbase s)) as [Heq|Hne].
    + split; [|done]. intros _. exists author. auto.
    + rewrite is_local_account_elem. split.
      * intros Hin. exists author. auto.
      * intros (a & [= <-] & [?|?]); [congruence|done].
  - split; [discriminate|]. intros (a & Ha & _). discriminate.
Qed.

(** X17: on a node whose engine [CreateConsensusEngine] made from a chain
    configuration with a Clique or a PBFT section, [shouldPreserve] is
    false for every block, the node's own included; with neither section
    it is [isLocalBlock]. *)
Theorem shouldPreserve_by_configuration
    (engine_Author : backend.Engine -> Header -> option Address)
    (ModeFake ModeTest ModeShared : Z)
    (ctx : backend.ServiceContext) (chainConfig : backend.ChainConfig)
    (config : backend.Config) (notify : list string) (noverify : bool) (db : N)
    (s : fst.Filestorm) (block : Header) :
  fst.engine s = snd (backend.CreateConsensusEngine ModeFake ModeTest ModeShared
                        ctx chainConfig config notify noverify db) ->
  (backend.Clique chainConfig <> None \/ backend.Pbft chainConfig <> None ->
     fst.shouldPreserve engine_Author s block = false) /\
  (backend.Clique chainConfig = None -> backend.Pbft chainConfig = None ->
     fst.shouldPreserve engine_Author s block = fst.isLocalBlock engine_Author s block).
Proof.
  intros Hengine. unfold fst.shouldPreserve. rewrite Hengine.
  unfold backend.CreateConsensusEngine. split.
  - intros Hsome. destruct (backend.Clique chainConfig); [done|].
    destruct (backend.Pbft chainConfig); [done|]. by destruct Hsome.
  - intros -> ->.
    destruct (backend.PowMode config =? ModeFake); [done|].
    destruct (backend.PowMode config =? ModeTest); [done|].
    by destruct (backend.PowMode config =? ModeShared).
Qed.

(** X18: a configured stormbase is returned as it is and nothing changes.
    Without one, the first account of the first wallet is returned and
    remembered; the call fails exactly when there is no wallet or the
    first wallet has no account, whatever the other wallets hold, and a
    failed call changes nothing.  The miner's etherbase is never touched.
    Once a non-zero address was returned, any later state with that
    stormbase returns it again. *)
Theorem Stormbase_resolution (s : fst.Filestorm) :
  ((fst.stormbase s <> 0%N -> fst.Stormbase s = (s, inr (fst.stormbase s))) /\
   (fst.stormbase s = 0%N ->
      (forall w ws a accs, fst.accountManager s = w :: ws -> fst.Accounts w = a :: accs ->
         fst.Stormbase s = (fst.set_stormbase s a, inr a)) /\
      ((fst.accountManager s = [] \/
        exists w ws, fst.accountManager s = w :: ws /\ fst.Accounts w = []) <->
       fst.Stormbase s = (s, inl fst.errStormbaseUnspecified)))) /\
  fst.miner_etherbase (fst.Stormbase s).1 = fst.miner_etherbase s /\
  (forall a s', (fst.Stormbase s).2 = inr a -> a <> 0%N ->
     fst.stormbase s' = fst.stormbase (fst.Stormbase s).1 ->
     fst.Stormbase s' = (s', inr a)).
Proof.
  unfold fst.Stormbase.
  destruct (N.eqb_spec (fst.stormbase s) 0) as [Hz|Hnz]; cbn [negb].
  - split; [split; [done|]|split].
    + intros _. split.
      * intros w ws a accs -> Hacc. by rewrite Hacc.
      * destruct (fst.accountManager s) as [|w ws].
        { split; [done|]. intros _. by left. }
        destruct (fst.Accounts w) as [|a accs] eqn:Hacc.
        { split; [done|]. intros _. right. by exists w, ws. }
        split; [|discriminate].
        intros [?|(w' & ws' & [= <- <-] & Hw)]; [done|congruence].
    + destruct (fst.accountManager s) as [|w ws]; [done|].
      by destruct (fst.Accounts w).
    + intros a s' Ha Hne Hs'.
      destruct (fst.accountManager s) as [|w ws]; [discriminate|].
      destruct (fst.Accounts w) as [|a0 accs]; [discriminate|].
      cbn in Ha, Hs'. injection Ha as ->. rewrite Hs'.
      destruct (N.eqb_spec a 0); [done|]. done.
  - split; [split; [done|done]|split; [done|]].
    intros a s' Ha Hne Hs'. cbn in Ha, Hs'. injection Ha as <-. rewrite Hs'.
    destruct (N.eqb_spec (fst.stormbase s) 0); done.
Qed.

(** X19: after [SetEtherbase a] with a non-zero [a], [Stormbase] answers
    [a] whatever the wallets hold, the miner's etherbase is [a] too, and a
    block whose recovered author is [a] is local. *)
Theorem SetEtherbase_then_Stormbase
    (engine_Author : backend.Engine -> Header -> option Address)
    (s : fst.Filestorm) (a : Address) :
  a <> 0%N ->
  fst.Stormbase (fst.SetEtherbase s a) = (fst.SetEtherbase s a, inr a) /\
  fst.miner_etherbase (fst.SetEtherbase s a) = a /\
  (forall block, engine_Author (fst.engine s) block = Some a ->
     fst.isLocalBlock engine_Author (fst.SetEtherbase s a) block = true).
Proof.
  intros Hne. split; [|split].
  - unfold fst.Stormbase, fst.SetEtherbase. cbn.
    destruct (N.eqb_spec a 0); done.
  - reflexivity.
  - intros block Hauthor. unfold fst.isLocalBlock, fst.SetEtherbase. cbn.
    rewrite Hauthor. by rewrite N.eqb_refl.
Qed.

(** X20: when the miner is already running, [StartMining] only hands the
    thread count to an engine that has threads (0 as -1) and returns nil:
    the transaction pool's gas price is not set, no stormbase is resolved,
    nobody is authorised, and no start is requested. *)
Theorem StartMining_while_mining
    (threaded : backend.Engine -> bool)
    (SetThreads : backend.Engine -> Z -> backend.Engine)
    (Find : list fst.Wallet -> Address -> option fst.Wallet * option N)
    (s : fst.Filestorm) (threads : Z) :
  fst.miner_mining s = true ->
  let s' := (fst.StartMining threaded SetThreads Find s threads).1 in
  (fst.StartMining threaded SetThreads Find s threads).2 = None /\
  fst.engine s' =
    (if threaded (fst.engine s)
     then SetThreads (fst.engine s) (if threads =? 0 then -1 else threads)
     else fst.engine s) /\
  fst.txPool_gasPrice s' = fst.txPool_gasPrice s /\
  fst.stormbase s' = fst.stormbase s /\
  fst.engine_signer s' = fst.engine_signer s /\
  fst.acceptTxs s' = fst.acceptTxs s /\
  fst.miner_started s' = fst.miner_started s.
Proof.
  intros Hmining s'. subst s'. unfold fst.StartMining.
  destruct (threaded (fst.engine s)); cbn; rewrite Hmining; cbn; repeat split.
Qed.

Lemma authorize_signer_inv (Find : list fst.Wallet -> Address -> option fst.Wallet * option N)
    (s s' : fst.Filestorm) (eb : Address) (failed : option fst.error) :
  fst.authorize_signer Find s eb = (s', failed) ->
  match failed with
  | Some err => s' = s /\ exists cause, err = fst.errSignerMissing cause
  | None => exists w, Find (fst.accountManager s) eb = (Some w, None) /\
                      s' = fst.set_engine_signer s eb w
  end.
Proof.
  unfold fst.authorize_signer.
  destruct (Find (fst.accountManager s) eb) as [[w|] [err|]]; intros [= <- <-]; eauto.
Qed.

(** X21: when the miner is not running, [StartMining] first sets the
    transaction pool's gas price to the node's.  If it then fails, it
    fails with "stormbase missing" (no stormbase is configured) or, for an
    engine that is not proof of work, with "signer missing"; transactions
    are not accepted, no start is requested and nobody is authorised.  If
    it succeeds, transactions are accepted and exactly one start is
    requested, for the stormbase of the resulting state, and an engine that
    is not proof of work has been authorised with that address and a
    wallet the account manager found for it. *)
Theorem StartMining_outcome
    (threaded : backend.Engine -> bool)
    (SetThreads : backend.Engine -> Z -> backend.Engine)
    (Find : list fst.Wallet -> Address -> option fst.Wallet * option N)
    (s s' : fst.Filestorm) (threads : Z) (failed : option fst.error) :
  fst.miner_mining s = false ->
  fst.StartMining threaded SetThreads Find s threads = (s', failed) ->
  fst.txPool_gasPrice s' = fst.gasPrice s /\
  match failed with
  | Some err =>
      fst.acceptTxs s' = fst.acceptTxs s /\
      fst.miner_started s' = fst.miner_started s /\
      fst.engine_signer s' = fst.engine_signer s /\
      (err = fst.errStormbaseMissing fst.errStormbaseUnspecified /\ fst.stormbase s = 0%N \/
       (exists cause, err = fst.errSignerMissing cause) /\
       backend.family (fst.engine s') <> backend.ProofOfWork)
  | None =>
      fst.acceptTxs s' = 1 /\
      fst.miner_started s' = fst.miner_started s ++ [fst.stormbase s'] /\
      (backend.family (fst.engine s') <> backend.ProofOfWork ->
       exists w, fst.engine_signer s' = Some (fst.stormbase s', w) /\
                 Find (fst.accountManager s) (fst.stormbase s') = (Some w, None))
  end.
Proof.
  intros Hmining Hrun. unfold fst.StartMining in Hrun.
  set (s1 := if threaded (fst.engine s)
             then fst.set_engine s (SetThreads (fst.engine s)
                                      (if threads =? 0 then -1 else threads))
             else s) in Hrun.
  assert (fst.miner_mining s1 = false /\ fst.gasPrice s1 = fst.gasPrice s /\
          fst.stormbase s1 = fst.stormbase s /\
          fst.accountManager s1 = fst.accountManager s /\
          fst.acceptTxs s1 = fst.acceptTxs s /\
          fst.miner_started s1 = fst.miner_started s /\
          fst.engine_signer s1 = fst.engine_signer s)
    as (Hm1 & <- & <- & <- & <- & <- & <-).
  { subst s1. destruct (threaded (fst.engine s)); cbn; repeat split; exact Hmining. }
  clearbody s1. clear Hmining s.
  rewrite Hm1 in Hrun. cbn [negb] in Hrun. unfold fst.Stormbase in Hrun.
  destruct s1 as [cfg les e sg am gp tgp sb nid acc mm me ms]. cbn in *.
  destruct (N.eqb_spec sb 0) as [->|Hsb]; cbn in Hrun.
  - destruct am as [|[url [|a accs]] ws]; cbn in Hrun;
      try (injection Hrun as <- <-; cbn; split; [done|]; repeat split; auto).
    unfold fst.authorize_signer in Hrun. cbn in Hrun.
    destruct e; cbn in Hrun;
      try destruct (Find _ a) as [[w|] [err|]] eqn:HFind; cbn in Hrun;
      injection Hrun as <- <-; cbn; (split; [done|]); repeat split;
      try (right; split; [eauto|discriminate]); try (by intros []); eauto.
  - unfold fst.authorize_signer in Hrun. cbn in Hrun.
    destruct e; cbn in Hrun;
      try destruct (Find am sb) as [[w|] [err|]] eqn:HFind; cbn in Hrun;
      injection Hrun as <- <-; cbn; (split; [done|]); repeat split;
      try (right; split; [eauto|discriminate]); try (by intros []); eauto.
Qed.

(** X22: [Start] fails exactly when the light server is on and the light
    peers would take every peer slot; it has then begun the entry update,
    the bloom handlers and the net API, and has started neither the
    protocol manager nor the light server.  With the light server off the
    light peer count is not looked at.  With it on and a count from 0 up
    to the total, the protocol manager gets the rest, at least one slot. *)
Theorem Start_peer_budget (s : fst.Filestorm) (MaxPeers : Z) :
  let begun := [fst.startEthEntryUpdate; fst.startBloomHandlers;
                fst.NewPublicNetAPI (fst.networkID s)] in
  let les := match fst.lesServer s with
             | Some ls => [fst.lesServer_Start ls]
             | None => []
             end in
  (fst.LightServ (fst.config s) > 0 -> fst.LightPeers (fst.config s) >= MaxPeers ->
     fst.Start s MaxPeers
     = (begun, Some (fst.errPeerConfig (fst.LightPeers (fst.config s)) MaxPeers))) /\
  (fst.LightServ (fst.config s) <= 0 ->
     fst.Start s MaxPeers = (begun ++ fst.protocolManager_Start MaxPeers :: les, None)) /\
  (fst.LightServ (fst.config s) > 0 ->
     0 <= fst.LightPeers (fst.config s) < MaxPeers -> MaxPeers < 2 ^ 63 ->
     fst.Start s MaxPeers
     = (begun ++ fst.protocolManager_Start (MaxPeers - fst.LightPeers (fst.config s)) :: les,
        None) /\
     1 <= MaxPeers - fst.LightPeers (fst.config s) <= MaxPeers).
Proof.
  intros begun les. subst begun les. unfold fst.Start.
  split; [|split].
  - intros Hserv Hpeers.
    destruct (Z.gtb_spec (fst.LightServ (fst.config s)) 0); [|lia].
    destruct (Z.geb_spec (fst.LightPeers (fst.config s)) MaxPeers); [done|lia].
  - intros Hserv.
    destruct (Z.gtb_spec (fst.LightServ (fst.config s)) 0); [lia|done].
  - intros Hserv Hpeers Hmax.
    destruct (Z.gtb_spec (fst.LightServ (fst.config s)) 0); [|lia].
    destruct (Z.geb_spec (fst.LightPeers (fst.config s)) MaxPeers); [lia|].
    rewrite wrap_int_small by lia. split; [done|lia].
Qed.

(** ** The node service on samples *)

(** With a limit of 32 bytes and a 3-byte default: 2 bytes pass, 40 bytes
    are dropped. *)
Lemma makeExtraData_within_limit_witness :
  Z.of_nat (length (fst.makeExtraData [1; 2; 3]%N 32 (repeat 7%N 40))) <= 32.
Proof.
  apply (makeExtraData_within_limit [1; 2; 3]%N 32 (repeat 7%N 40)). lia.
Defined.

Lemma makeExtraData_drops_oversized_witness :
  fst.makeExtraData [1; 2; 3]%N 32 [8; 9]%N = [8; 9]%N /\
  fst.makeExtraData [1; 2; 3]%N 32 (repeat 7%N 40) = [] /\
  fst.makeExtraData [1; 2; 3]%N 32
    (fst.makeExtraData [1; 2; 3]%N 32 (repeat 7%N 40)) = [1; 2; 3]%N.
Proof.
  pose proof (makeExtraData_drops_oversized [1; 2; 3]%N 32 [8; 9]%N ltac:(lia)) as Hsmall.
  pose proof (makeExtraData_drops_oversized [1; 2; 3]%N 32 (repeat 7%N 40) ltac:(lia)) as Hbig.
  cbv zeta in Hsmall, Hbig.
  destruct Hsmall as [Hsmall _]. destruct Hbig as (_ & Hbig & _).
  destruct Hbig as [Hdrop Htwice]; [vm_compute; reflexivity|].
  split; [apply Hsmall; [discriminate|vm_compute; discriminate]|].
  split; [exact Hdrop|]. apply Htwice. vm_compute. discriminate.
Defined.

(** A block sealed by the local account 32 is local. *)
Lemma isLocalBlock_iff_witness :
  fst.isLocalBlock sample_engine_Author (sample_service sample_pow 21%N [] false)
    (sample_header (first_inturn 5) (fun _ => 32%N) 7) = true.
Proof.
  apply (isLocalBlock_iff sample_engine_Author (sample_service sample_pow 21%N [] false)
           (sample_header (first_inturn 5) (fun _ => 32%N) 7)).
  exists 32%N. split; [reflexivity|]. right.
  apply list_elem_of_In. cbn. auto.
Defined.

(** A PBFT node does not preserve a block its own stormbase sealed. *)
Lemma shouldPreserve_by_configuration_witness :
  fst.shouldPreserve sample_engine_Author
    (sample_service
       (backend.pbft_New {| backend.pbft_Period := 15; backend.pbft_Epoch := 30000 |} 0%N)
       21%N [] false)
    (sample_header (first_inturn 5) (fun _ => 21%N) 7) = false.
Proof.
  destruct (shouldPreserve_by_configuration sample_engine_Author 3 2 1 sample_ctx
              sample_pbft_chain sample_pow_config [] false 0%N
              (sample_service
                 (backend.pbft_New {| backend.pbft_Period := 15; backend.pbft_Epoch := 30000 |}
                    0%N) 21%N [] false)
              (sample_header (first_inturn 5) (fun _ => 21%N) 7) eq_refl) as [Hpoa _].
  apply Hpoa. right. discriminate.
Defined.

(** With no stormbase and an empty first wallet the call fails although
    the second wallet holds accounts. *)
Lemma Stormbase_resolution_witness :
  fst.Stormbase (sample_service sample_pow 0%N [empty_wallet; sample_wallet] false)
  = (sample_service sample_pow 0%N [empty_wallet; sample_wallet] false,
     inl fst.errStormbaseUnspecified) /\
  fst.Stormbase (sample_service sample_pow 0%N [sample_wallet] false)
  = (fst.set_stormbase (sample_service sample_pow 0%N [sample_wallet] false) 21%N, inr 21%N).
Proof.
  destruct (Stormbase_resolution
              (sample_service sample_pow 0%N [empty_wallet; sample_wallet] false))
    as [[_ Hzero] _].
  destruct (Hzero eq_refl) as [_ [Hfail _]].
  destruct (Stormbase_resolution (sample_service sample_pow 0%N [sample_wallet] false))
    as [[_ Hzero'] _].
  destruct (Hzero' eq_refl) as [Hfirst _].
  split.
  - apply Hfail. right. exists empty_wallet, [sample_wallet]. split; reflexivity.
  - exact (Hfirst sample_wallet [] 21%N [22%N] eq_refl eq_refl).
Defined.

Lemma SetEtherbase_then_Stormbase_witness :
  fst.Stormbase (fst.SetEtherbase (sample_service sample_pow 0%N [] false) 44%N)
  = (fst.SetEtherbase (sample_service sample_pow 0%N [] false) 44%N, inr 44%N).
Proof.
  destruct (SetEtherbase_then_Stormbase sample_engine_Author
              (sample_service sample_pow 0%N [] false) 44%N ltac:(discriminate))
    as [Hbase _].
  exact Hbase.
Defined.

(** A running miner: [StartMining 0] sets the engine's threads to -1 and
    leaves the transaction pool's price at 1. *)
Lemma StartMining_while_mining_witness :
  fst.engine (fst.StartMining sample_threaded sample_SetThreads sample_Find
                (sample_service (backend.fstash_New sample_pow_config [] false 4)
                   21%N [sample_wallet] true) 0).1
  = backend.fstash_New sample_pow_config [] false (-1) /\
  fst.txPool_gasPrice
    (fst.StartMining sample_threaded sample_SetThreads sample_Find
       (sample_service (backend.fstash_New sample_pow_config [] false 4)
          21%N [sample_wallet] true) 0).1 = 1.
Proof.
  pose proof (StartMining_while_mining sample_threaded sample_SetThreads sample_Find
                (sample_service (backend.fstash_New sample_pow_config [] false 4)
                   21%N [sample_wallet] true) 0 eq_refl) as Hrun.
  cbv zeta in Hrun. destruct Hrun as (_ & Hengine & Hprice & _).
  exact (conj Hengine Hprice).
Defined.

(** A Clique node without stormbase whose only wallet holds account 21:
    the start is requested for 21, with that wallet authorised. *)
Lemma StartMining_outcome_witness :
  exists s',
    fst.StartMining sample_threaded sample_SetThreads sample_Find
      (sample_service sample_clique 0%N [sample_wallet] false) 2 = (s', None) /\
    fst.acceptTxs s' = 1 /\ fst.miner_started s' = [21%N] /\
    fst.engine_signer s' = Some (21%N, sample_wallet) /\
    fst.txPool_gasPrice s' = 1000000000.
Proof.
  destruct (fst.StartMining sample_threaded sample_SetThreads sample_Find
              (sample_service sample_clique 0%N [sample_wallet] false) 2)
    as [s' [err|]] eqn:Hrun; [vm_compute in Hrun; discriminate|].
  exists s'. split; [reflexivity|].
  pose proof (StartMining_outcome sample_threaded sample_SetThreads sample_Find
                (sample_service sample_clique 0%N [sample_wallet] false) s' 2 None
                eq_refl Hrun) as (Hprice & Hacc & Hstart & Hsigner).
  assert (fst.stormbase s' = 21%N /\ fst.engine s' = sample_clique) as [Hbase Hengine].
  { vm_compute in Hrun. injection Hrun as <-. split; reflexivity. }
  destruct Hsigner as (w & Hw & HFind); [rewrite Hengine; discriminate|].
  rewrite Hbase in Hstart, Hw, HFind. vm_compute in HFind. injection HFind as <-.
  exact (conj Hacc (conj Hstart (conj Hw Hprice))).
Defined.

(** 10 light peers out of 25: the protocol manager gets 15.  With 25
    light peers out of 25 the start fails. *)
Lemma Start_peer_budget_witness :
  fst.Start (sample_service sample_pow 21%N [] false) 25
  = ([fst.startEthEntryUpdate; fst.startBloomHandlers; fst.NewPublicNetAPI 20;
      fst.protocolManager_Start 15; fst.lesServer_Start 1%N], None) /\
  fst.Start (sample_service sample_pow 21%N [] false) 10
  = ([fst.startEthEntryUpdate; fst.startBloomHandlers; fst.NewPublicNetAPI 20],
     Some (fst.errPeerConfig 10 10)).
Proof.
  pose proof (Start_peer_budget (sample_service sample_pow 21%N [] false) 25) as H25.
  pose proof (Start_peer_budget (sample_service sample_pow 21%N [] false) 10) as H10.
  cbv zeta in H25, H10.
  destruct H25 as (_ & _ & Hok). destruct H10 as (Hfail & _).
  split.
  - apply Hok; vm_compute; try reflexivity; split; try discriminate; reflexivity.
  - apply Hfail; vm_compute; try reflexivity; discriminate.
Defined.

(* ===================================================================== *)
(** * 15. The application-chain contract *)
(* ===================================================================== *)

(** Opening up a successful call. *)
Ltac exec_inv H :=
  unfold AppChainBase.exec, AppChainBase.updateChainName, AppChainBase.updateFlushEpoch,
    AppChainBase.addAdmin, AppChainBase.removeAdmin, AppChainBase.addFund,
    AppChainBase.withdrawFund, AppChainBase.flush, AppChainBase.superflush,
    AppChainBase.setGenesisInfo, AppChainBase.nonpayable, AppChainBase.flush_body,
    AppChainBase.transfer in H;
  repeat match type of H with
         | context [if ?b then _ else _] => let E := fresh "E" in destruct b eqn:E
         end;
  try discriminate H; try (injection H as <-).

(** X23: for operands in the [uint256] range each [SafeMath] function
    returns the exact mathematical result when that result exists and is
    in range, and reverts otherwise: it never returns a wrapped value. *)
Theorem SafeMath_exact (a b : Z) :
  0 <= a < 2 ^ 256 -> 0 <= b < 2 ^ 256 ->
  AppChainBase.SafeMath_add a b = (if a + b <? 2 ^ 256 then Some (a + b) else None) /\
  AppChainBase.SafeMath_sub a b = (if b <=? a then Some (a - b) else None) /\
  AppChainBase.SafeMath_mul a b = (if a * b <? 2 ^ 256 then Some (a * b) else None) /\
  AppChainBase.SafeMath_div a b = (if b =? 0 then None else Some (a / b)) /\
  AppChainBase.SafeMath_mod a b = (if b =? 0 then None else Some (a mod b)).
Proof.
  intros Ha Hb.
  unfold AppChainBase.SafeMath_add, AppChainBase.SafeMath_sub, AppChainBase.SafeMath_mul,
    AppChainBase.SafeMath_div, AppChainBase.SafeMath_mod, AppChainBase.u256.
  split; [|split; [|split; [|split]]].
  - destruct (Z.ltb_spec (a + b) (2 ^ 256)) as [Hlt|Hge].
    + rewrite Z.mod_small by lia.
      destruct (Z.geb_spec (a + b) a); [done|lia].
    + replace ((a + b) mod 2 ^ 256) with (a + b - 2 ^ 256).
      * destruct (Z.geb_spec (a + b - 2 ^ 256) a); [lia|done].
      * apply (Z.mod_unique (a + b) (2 ^ 256) 1); lia.
  - destruct (Z.leb_spec b a); [|done].
    rewrite Z.mod_small by lia. done.
  - destruct (Z.eqb_spec a 0) as [->|Hnz].
    + cbn. done.
    + assert (0 <= a * b) as Hprod by nia.
      destruct (Z.ltb_spec (a * b) (2 ^ 256)) as [Hlt|Hge].
      * rewrite Z.mod_small by lia.
        rewrite (Z.mul_comm a b), Z.div_mul by lia.
        by rewrite Z.eqb_refl.
      * pose proof (Z.mod_pos_bound (a * b) (2 ^ 256) ltac:(lia)) as Hc.
        destruct (Z.eqb_spec ((a * b) mod 2 ^ 256 / a) b) as [Heq|]; [|done].
        pose proof (Z.mul_div_le ((a * b) mod 2 ^ 256) a ltac:(lia)) as Hle.
        rewrite Heq in Hle. lia.
  - destruct (Z.gtb_spec b 0); destruct (Z.eqb_spec b 0); try lia; done.
  - destruct (Z.eqb_spec b 0); done.
Qed.

Lemma flush_allowed_outsider (s : AppChainBase.State) (msg : AppChainBase.Msg)
    (number : Z) (validators : list Address) :
  AppChainBase.is_admin s (AppChainBase.sender msg) = false ->
  AppChainBase.sender msg ∉ validators ->
  AppChainBase.flush_allowed s msg number validators = false.
Proof.
  intros Hadmin. induction validators as [|v validators IH]; intros Hout; cbn; [done|].
  rewrite Hadmin.
  destruct (N.eqb_spec v (AppChainBase.sender msg)) as [->|Hne].
  - exfalso. apply Hout. by left.
  - cbn. apply IH. intros Hin. apply Hout. by right.
Qed.

(** X24: a caller that is neither an admin nor a validator of the latest
    round can change the contract through [addFund] only.  Each call it
    makes of [updateChainName], [updateFlushEpoch], [addAdmin],
    [removeAdmin], [withdrawFund], [superflush] or [setGenesisInfo]
    reverts.  Its call of [flush] reverts when it carries ether, when
    [balance] is zero or when the block number is not the expected one,
    and returns successfully without any effect otherwise.  In every case
    the state stays as it was. *)
Theorem outsider_changes_nothing (accepts : Address -> bool)
    (s : AppChainBase.State) (msg : AppChainBase.Msg) (c : AppChainBase.Call) :
  AppChainBase.is_admin s (AppChainBase.sender msg) = false ->
  AppChainBase.sender msg ∉ AppChainBase.latest_validators s ->
  c <> AppChainBase.AddFund -> c <> AppChainBase.ForcedEther ->
  AppChainBase.step accepts s (msg, c) = s /\
  (forall vals number hash, c = AppChainBase.Flush vals number hash ->
     AppChainBase.value msg = 0 -> AppChainBase.balance s > 0 ->
     AppChainBase.u256 (AppChainBase.lastFlushedBlock s + AppChainBase.flushEpoch s) = number ->
     AppChainBase.exec accepts s msg c = Some s) /\
  ((forall vals number hash, c <> AppChainBase.Flush vals number hash) ->
     AppChainBase.exec accepts s msg c = None) /\
  (forall vals number hash, c = AppChainBase.Flush vals number hash ->
     AppChainBase.exec accepts s msg c =
       if (AppChainBase.value msg =? 0) && (AppChainBase.balance s >? 0) &&
          (AppChainBase.u256 (AppChainBase.lastFlushedBlock s + AppChainBase.flushEpoch s)
             =? number)
       then Some s else None).
Proof.
  intros Hadmin Hout Hfund Hforced.
  pose proof (flush_allowed_outsider s msg) as Hno.
  unfold AppChainBase.latest_validators in Hout.
  split; [|split; [|split]].
  - unfold AppChainBase.step. cbn [fst snd].
    destruct (AppChainBase.exec accepts s msg c) as [s'|] eqn:Hexec; [|done]. cbn.
    destruct c; try done;
      unfold AppChainBase.exec, AppChainBase.updateChainName, AppChainBase.updateFlushEpoch,
        AppChainBase.addAdmin, AppChainBase.removeAdmin, AppChainBase.withdrawFund,
        AppChainBase.flush, AppChainBase.superflush, AppChainBase.setGenesisInfo,
        AppChainBase.nonpayable, AppChainBase.flush_body in Hexec;
      rewrite ?Hadmin, ?Hno in Hexec by done;
      repeat match type of Hexec with
             | context [if ?b then _ else _] => destruct b
             end; congruence.
  - intros vals number hash -> Hvalue Hbal Hnum.
    unfold AppChainBase.exec, AppChainBase.flush, AppChainBase.nonpayable,
      AppChainBase.flush_body.
    rewrite Hvalue, Hnum, Hno by done. cbn.
    destruct (Z.gtb_spec (AppChainBase.balance s) 0); [|lia].
    by rewrite Z.eqb_refl.
  - intros Hnoflush.
    destruct c; try done;
      try (by destruct (Hnoflush current_validators number hash));
      unfold AppChainBase.exec, AppChainBase.updateChainName, AppChainBase.updateFlushEpoch,
        AppChainBase.addAdmin, AppChainBase.removeAdmin, AppChainBase.withdrawFund,
        AppChainBase.superflush, AppChainBase.setGenesisInfo, AppChainBase.nonpayable;
      rewrite Hadmin;
      repeat match goal with
             | |- context [if ?b then _ else _] => destruct b
             end; reflexivity.
  - intros vals number hash ->.
    unfold AppChainBase.exec, AppChainBase.flush, AppChainBase.nonpayable,
      AppChainBase.flush_body.
    rewrite Hno by done.
    destruct (AppChainBase.value msg =? 0); [|done].
    destruct (AppChainBase.balance s >? 0); [|done].
    by destruct (AppChainBase.u256 (AppChainBase.lastFlushedBlock s + AppChainBase.flushEpoch s)
                   =? number).
Qed.

Lemma exec_admins (accepts : Address -> bool)
    (s s' : AppChainBase.State) (msg : AppChainBase.Msg) (c : AppChainBase.Call) :
  AppChainBase.exec accepts s msg c = Some s' ->
  AppChainBase.admins s' = AppChainBase.admins s \/
  (exists admin, AppChainBase.admins s' = <[admin := 1]> (AppChainBase.admins s)) \/
  (exists admin, admin <> AppChainBase.sender msg /\
     AppChainBase.is_admin s (AppChainBase.sender msg) = true /\
     AppChainBase.admins s' = <[admin := 0]> (AppChainBase.admins s)).
Proof.
  intros Hexec. destruct c; exec_inv Hexec; cbn; eauto.
  right. right. exists admin. split; [|done].
  apply Bool.negb_true_iff in E1. by apply N.eqb_neq in E1.
Qed.

Lemma step_keeps_an_admin (accepts : Address -> bool)
    (s : AppChainBase.State) (tx : AppChainBase.Msg * AppChainBase.Call) :
  (exists a, AppChainBase.is_admin s a = true) ->
  exists a, AppChainBase.is_admin (AppChainBase.step accepts s tx) a = true.
Proof.
  intros [a Ha]. unfold AppChainBase.step.
  destruct (AppChainBase.exec accepts s tx.1 tx.2) as [s'|] eqn:Hexec; cbn; [|eauto].
  unfold AppChainBase.is_admin in *.
  destruct (exec_admins _ _ _ _ _ Hexec) as [Heq|[[admin Heq]|(admin & Hne & Hsender & Heq)]];
    rewrite Heq.
  - eauto.
  - destruct (decide (admin = a)) as [->|Hna].
    + exists a. by rewrite lookup_insert_eq.
    + exists a. by rewrite lookup_insert_ne.
  - exists (AppChainBase.sender tx.1). by rewrite lookup_insert_ne.
Qed.

(** X25: the contract always has an admin: after the constructor and any
    sequence of calls, by anyone and with any arguments, some address is
    an admin. *)
Theorem admin_never_lost (accepts : Address -> bool) (pre_ether : Z)
    (msg : AppChainBase.Msg) (name : string) (uniqueId blockSec flushNumber : Z)
    (initial_validators : list Address) (totalSupply : Z) (s0 : AppChainBase.State)
    (txs : list (AppChainBase.Msg * AppChainBase.Call)) :
  AppChainBase.constructor pre_ether msg name uniqueId blockSec flushNumber
    initial_validators totalSupply = Some s0 ->
  exists a, AppChainBase.is_admin (AppChainBase.run accepts s0 txs) a = true.
Proof.
  intros Hctor.
  assert (exists a, AppChainBase.is_admin s0 a = true) as Hinit.
  { unfold AppChainBase.constructor in Hctor.
    destruct (AppChainBase.value msg >=? AppChainBase.FOUNDATION_MOAC_REQUIRED_AMOUNT);
      [|discriminate].
    injection Hctor as <-. exists (AppChainBase.sender msg).
    unfold AppChainBase.is_admin. cbn. by rewrite lookup_insert_eq. }
  clear Hctor. unfold AppChainBase.run.
  revert s0 Hinit. induction txs as [|tx txs IH]; intros s0 Hinit; cbn; [done|].
  apply IH. by apply step_keeps_an_admin.
Qed.

Lemma exec_genesis (accepts : Address -> bool)
    (s s' : AppChainBase.State) (msg : AppChainBase.Msg) (c : AppChainBase.Call) :
  AppChainBase.exec accepts s msg c = Some s' ->
  AppChainBase.genesisSet s = true ->
  AppChainBase.genesisInfo s' = AppChainBase.genesisInfo s /\
  AppChainBase.genesisSet s' = true.
Proof.
  intros Hexec Hset. destruct c; exec_inv Hexec; cbn; auto.
  rewrite Hset in *. discriminate.
Qed.

(** X26: the genesis information is written once: an admin can set it
    while it is unset, and once it is set no sequence of calls changes
    what [getGenesisInfo] returns. *)
Theorem genesis_written_once (accepts : Address -> bool) (s : AppChainBase.State) :
  (forall msg genesis,
     AppChainBase.genesisSet s = false ->
     AppChainBase.is_admin s (AppChainBase.sender msg) = true ->
     AppChainBase.value msg = 0 ->
     exists s', AppChainBase.setGenesisInfo s msg genesis = Some s' /\
       AppChainBase.getGenesisInfo s' = genesis /\ AppChainBase.genesisSet s' = true) /\
  (AppChainBase.genesisSet s = true ->
   forall txs,
     AppChainBase.getGenesisInfo (AppChainBase.run accepts s txs)
     = AppChainBase.getGenesisInfo s /\
     AppChainBase.genesisSet (AppChainBase.run accepts s txs) = true).
Proof.
  split.
  - intros msg genesis Hunset Hadmin Hvalue.
    unfold AppChainBase.setGenesisInfo, AppChainBase.nonpayable.
    rewrite Hvalue, Hadmin, Hunset. cbn. eauto.
  - intros Hset txs. unfold AppChainBase.run, AppChainBase.getGenesisInfo.
    revert s Hset. induction txs as [|tx txs IH]; intros s Hset; cbn; [done|].
    assert (AppChainBase.genesisInfo (AppChainBase.step accepts s tx)
            = AppChainBase.genesisInfo s /\
            AppChainBase.genesisSet (AppChainBase.step accepts s tx) = true) as [Hinfo Hset'].
    { unfold AppChainBase.step.
      destruct (AppChainBase.exec accepts s tx.1 tx.2) as [s'|] eqn:Hexec; cbn; [|done].
      by apply (exec_genesis accepts s s' tx.1 tx.2). }
    destruct (IH _ Hset') as [Hinfo' Hset'']. split; [congruence|done].
Qed.

Lemma exec_flushList (accepts : Address -> bool)
    (s s' : AppChainBase.State) (msg : AppChainBase.Msg) (c : AppChainBase.Call) :
  AppChainBase.exec accepts s msg c = Some s' ->
  AppChainBase.flushList s' = AppChainBase.flushList s \/
  AppChainBase.flushList s' =
    AppChainBase.flushList s ++
      [AppChainBase.u256
         (AppChainBase.u256 (Z.of_nat (length (AppChainBase.flushList s)) - 1) + 1)].
Proof.
  intros Hexec. destruct c; exec_inv Hexec; cbn; auto.
Qed.

Lemma step_rounds (accepts : Address -> bool)
    (s : AppChainBase.State) (tx : AppChainBase.Msg * AppChainBase.Call) (n : Z) :
  1 <= n < 2 ^ 256 - 1 ->
  AppChainBase.flushList s = seqZ 0 n ->
  AppChainBase.flushList (AppChainBase.step accepts s tx) = seqZ 0 n \/
  AppChainBase.flushList (AppChainBase.step accepts s tx) = seqZ 0 (n + 1).
Proof.
  intros Hn Hlist. unfold AppChainBase.step.
  destruct (AppChainBase.exec accepts s tx.1 tx.2) as [s'|] eqn:Hexec; cbn; [|auto].
  destruct (exec_flushList _ _ _ _ _ Hexec) as [->| ->]; [auto|].
  right. rewrite Hlist, length_seqZ. unfold AppChainBase.u256.
  rewrite (Z.mod_small (Z.of_nat (Z.to_nat n) - 1)) by lia.
  rewrite Z.mod_small by lia.
  replace (Z.of_nat (Z.to_nat n) - 1 + 1) with (0 + n) by lia.
  rewrite seqZ_app by lia. done.
Qed.

(** X27: the flush rounds are numbered consecutively from 0: after the
    constructor and any sequence of calls the list of round ids is 0, 1,
    ..., with at least round 0 and at most one more round per call. *)
Theorem flush_rounds_consecutive (accepts : Address -> bool) (pre_ether : Z)
    (msg : AppChainBase.Msg) (name : string) (uniqueId blockSec flushNumber : Z)
    (initial_validators : list Address) (totalSupply : Z) (s0 : AppChainBase.State)
    (txs : list (AppChainBase.Msg * AppChainBase.Call)) :
  AppChainBase.constructor pre_ether msg name uniqueId blockSec flushNumber
    initial_validators totalSupply = Some s0 ->
  Z.of_nat (length txs) + 1 < 2 ^ 256 ->
  exists n, 1 <= n <= Z.of_nat (length txs) + 1 /\
    AppChainBase.flushList (AppChainBase.run accepts s0 txs) = seqZ 0 n.
Proof.
  intros Hctor Hlen.
  assert (AppChainBase.flushList s0 = seqZ 0 1) as Hinit.
  { unfold AppChainBase.constructor in Hctor.
    destruct (AppChainBase.value msg >=? AppChainBase.FOUNDATION_MOAC_REQUIRED_AMOUNT);
      [|discriminate].
    by injection Hctor as <-. }
  clear Hctor. unfold AppChainBase.run.
  assert (forall (txs : list (AppChainBase.Msg * AppChainBase.Call)) s m,
            1 <= m -> m + Z.of_nat (length txs) < 2 ^ 256 ->
            AppChainBase.flushList s = seqZ 0 m ->
            exists n, m <= n <= m + Z.of_nat (length txs) /\
              AppChainBase.flushList (foldl (AppChainBase.step accepts) s txs) = seqZ 0 n)
    as Hgen.
  { clear. intros txs. induction txs as [|tx txs IH]; intros s m Hm Hbound Hlist; cbn.
    - exists m. split; [lia|done].
    - cbn [length] in Hbound.
      destruct (step_rounds accepts s tx m ltac:(lia) Hlist) as [Hsame|Hnext].
      + destruct (IH _ m Hm ltac:(lia) Hsame) as (n & Hn & Hrun).
        exists n. split; [lia|done].
      + destruct (IH _ (m + 1) ltac:(lia) ltac:(lia) Hnext) as (n & Hn & Hrun).
        exists n. split; [lia|done]. }
  destruct (Hgen txs s0 1 ltac:(lia) ltac:(lia) Hinit) as (n & Hn & Hrun).
  exists n. split; [lia|done].
Qed.

Lemma exec_without_validators (accepts : Address -> bool)
    (s s' : AppChainBase.State) (msg : AppChainBase.Msg) (c : AppChainBase.Call) :
  AppChainBase.exec accepts s msg c = Some s' ->
  AppChainBase.latest_validators s = [] ->
  AppChainBase.flushList s' = AppChainBase.flushList s /\
  AppChainBase.flushValidatorList s' = AppChainBase.flushValidatorList s /\
  AppChainBase.flushMapping s' = AppChainBase.flushMapping s /\
  AppChainBase.lastFlushedBlock s' = AppChainBase.lastFlushedBlock s.
Proof.
  intros Hexec Hnone. unfold AppChainBase.latest_validators in Hnone.
  destruct c;
    unfold AppChainBase.exec, AppChainBase.updateChainName, AppChainBase.updateFlushEpoch,
      AppChainBase.addAdmin, AppChainBase.removeAdmin, AppChainBase.addFund,
      AppChainBase.withdrawFund, AppChainBase.flush, AppChainBase.superflush,
      AppChainBase.setGenesisInfo, AppChainBase.nonpayable, AppChainBase.flush_body,
      AppChainBase.transfer in Hexec;
    rewrite ?Hnone in Hexec; cbn [AppChainBase.flush_allowed] in Hexec;
    repeat match type of Hexec with
           | context [if ?b then _ else _] => destruct b
           end;
    try discriminate Hexec; injection Hexec as <-; cbn; auto.
Qed.

(** X28: a round without validators ends the flushing: when the latest
    round has an empty validator list, no sequence of calls, not even by
    an admin through [flush] or [superflush], ever adds a round or moves
    the last flushed block.  A contract constructed with no initial
    validators is in that state from the start. *)
Theorem no_validators_no_flush (accepts : Address -> bool) (s : AppChainBase.State)
    (txs : list (AppChainBase.Msg * AppChainBase.Call)) :
  AppChainBase.latest_validators s = [] ->
  AppChainBase.flushList (AppChainBase.run accepts s txs) = AppChainBase.flushList s /\
  AppChainBase.lastFlushedBlock (AppChainBase.run accepts s txs)
  = AppChainBase.lastFlushedBlock s /\
  AppChainBase.latest_validators (AppChainBase.run accepts s txs) = [].
Proof.
  unfold AppChainBase.run. revert s.
  induction txs as [|tx txs IH]; intros s Hnone; cbn; [done|].
  assert (AppChainBase.flushList (AppChainBase.step accepts s tx) = AppChainBase.flushList s /\
          AppChainBase.flushValidatorList (AppChainBase.step accepts s tx)
          = AppChainBase.flushValidatorList s /\
          AppChainBase.lastFlushedBlock (AppChainBase.step accepts s tx)
          = AppChainBase.lastFlushedBlock s) as (Hl & Hv & Hb).
  { unfold AppChainBase.step.
    destruct (AppChainBase.exec accepts s tx.1 tx.2) as [s'|] eqn:Hexec; cbn; [|done].
    destruct (exec_without_validators _ _ _ _ _ Hexec Hnone) as (? & ? & _ & ?). done. }
  assert (AppChainBase.latest_validators (AppChainBase.step accepts s tx) = []) as Hnone'.
  { unfold AppChainBase.latest_validators in *. by rewrite Hl, Hv. }
  destruct (IH _ Hnone') as (Hl' & Hb' & Hn'). split; [congruence|]. split; [congruence|done].
Qed.

(** X29: as long as ether reaches the contract through its payable
    functions only, the [balance] it keeps is the ether it holds: a call
    that succeeds on a state where the two agree leaves a state where they
    agree, so [flush] and [withdrawFund] cannot take [balance] below
    zero. *)
Theorem balance_tracks_ether (accepts : Address -> bool)
    (s s' : AppChainBase.State) (msg : AppChainBase.Msg) (c : AppChainBase.Call) :
  AppChainBase.exec accepts s msg c = Some s' ->
  c <> AppChainBase.ForcedEther ->
  (forall recv amount, c = AppChainBase.WithdrawFund recv amount -> 0 <= amount) ->
  AppChainBase.balance s = AppChainBase.ether s ->
  0 <= AppChainBase.balance s ->
  0 <= AppChainBase.value msg ->
  AppChainBase.ether s + AppChainBase.value msg < 2 ^ 256 ->
  AppChainBase.balance s' = AppChainBase.ether s' /\ 0 <= AppChainBase.balance s'.
Proof.
  intros Hexec Hforced Hamount Hbal Hpos Hvalue Hbound.
  assert (forall x, 0 <= x <= AppChainBase.ether s ->
            AppChainBase.u256 (AppChainBase.balance s - x) = AppChainBase.ether s - x /\
            0 <= AppChainBase.u256 (AppChainBase.balance s - x)) as Htake.
  { intros x Hx. unfold AppChainBase.u256. rewrite Z.mod_small by lia. lia. }
  destruct c; try done; clear Hforced.
  - exec_inv Hexec; cbn; auto.
  - exec_inv Hexec; cbn; auto.
  - exec_inv Hexec; cbn; auto.
  - exec_inv Hexec; cbn; auto.
  - clear Hamount. exec_inv Hexec. cbn.
    unfold AppChainBase.u256. rewrite Z.mod_small by lia. lia.
  - specialize (Hamount _ _ eq_refl). exec_inv Hexec. cbn.
    match goal with
    | H : (_ <=? _) && _ = true |- _ => apply andb_prop in H as [Hle _]
    end. apply Z.leb_le in Hle. cbn in Hle.
    apply Htake. lia.
  - clear Hamount. exec_inv Hexec; cbn; auto.
    match goal with
    | H : (_ <=? _) && _ = true |- _ => apply andb_prop in H as [Hle _]
    end. apply Z.leb_le in Hle. cbn in Hle.
    apply Htake. unfold AppChainBase.FLUSH_AMOUNT in *. lia.
  - clear Hamount. exec_inv Hexec; cbn; auto.
    match goal with
    | H : (_ <=? _) && _ = true |- _ => apply andb_prop in H as [Hle _]
    end. apply Z.leb_le in Hle. cbn in Hle.
    apply Htake. unfold AppChainBase.FLUSH_AMOUNT in *. lia.
  - exec_inv Hexec; cbn; auto.
Qed.

Lemma flush_allowed_insider (s : AppChainBase.State) (msg : AppChainBase.Msg)
    (number : Z) (validators : list Address) :
  AppChainBase.u256 (AppChainBase.lastFlushedBlock s + AppChainBase.flushEpoch s) = number ->
  AppChainBase.sender msg ∈ validators \/
    (AppChainBase.is_admin s (AppChainBase.sender msg) = true /\ validators <> []) ->
  AppChainBase.flush_allowed s msg number validators = true.
Proof.
  intros Hnum [Hin|[Hadmin Hne]].
  - induction validators as [|v validators IH]; [by apply elem_of_nil in Hin|].
    cbn. rewrite Hnum, Z.eqb_refl.
    apply elem_of_cons in Hin as [<-|Hin].
    + by rewrite N.eqb_refl.
    + destruct ((v =? AppChainBase.sender msg)%N
                || AppChainBase.is_admin s (AppChainBase.sender msg)); cbn; [done|].
      by apply IH.
  - destruct validators as [|v validators]; [done|].
    cbn. rewrite Hadmin, Hnum, Z.eqb_refl, Bool.orb_true_r. done.
Qed.

(** X30: [flush] checks only that [balance] is above zero before taking
    the flush amount from it.  When ether has reached the contract outside
    its functions, so that it holds the flush amount while [balance] is
    less, a flush of the expected block by a validator of the latest
    round, or by an admin while that round has at least one validator,
    goes through and wraps [balance] around to
    2^256 + balance - FLUSH_AMOUNT. *)
Theorem flush_wraps_balance (accepts : Address -> bool)
    (s : AppChainBase.State) (msg : AppChainBase.Msg)
    (current_validators : list Address) (number : Z) (hash : string) :
  AppChainBase.value msg = 0 ->
  0 < AppChainBase.balance s < AppChainBase.FLUSH_AMOUNT ->
  AppChainBase.FLUSH_AMOUNT <= AppChainBase.ether s ->
  accepts AppChainBase.FOUNDATION_BLACK_HOLE_ADDRESS = true ->
  AppChainBase.u256 (AppChainBase.lastFlushedBlock s + AppChainBase.flushEpoch s) = number ->
  AppChainBase.sender msg ∈ AppChainBase.latest_validators s \/
    (AppChainBase.is_admin s (AppChainBase.sender msg) = true /\
     AppChainBase.latest_validators s <> []) ->
  exists s', AppChainBase.flush accepts s msg current_validators number hash = Some s' /\
    AppChainBase.balance s'
    = 2 ^ 256 + AppChainBase.balance s - AppChainBase.FLUSH_AMOUNT /\
    AppChainBase.ether s' = AppChainBase.ether s - AppChainBase.FLUSH_AMOUNT /\
    AppChainBase.lastFlushedBlock s' = number.
Proof.
  intros Hvalue Hbal Hether Haccepts Hnum Hcaller.
  pose proof (flush_allowed_insider s msg number _ Hnum Hcaller) as Hallowed.
  unfold AppChainBase.latest_validators in Hallowed.
  unfold AppChainBase.flush, AppChainBase.nonpayable, AppChainBase.flush_body,
    AppChainBase.transfer.
  rewrite Hvalue, Hnum, Hallowed. cbn.
  destruct (Z.gtb_spec (AppChainBase.balance s) 0); [|lia].
  rewrite Z.eqb_refl, Haccepts.
  destruct (Z.leb_spec AppChainBase.FLUSH_AMOUNT (AppChainBase.ether s)); [|lia].
  cbn. eexists. split; [reflexivity|]. cbn.
  split; [|split; [done|by rewrite lookup_insert_eq]].
  unfold AppChainBase.u256.
  symmetry. apply (Z.mod_unique _ (2 ^ 256) (-1)); [|lia].
  left. unfold AppChainBase.FLUSH_AMOUNT in *. lia.
Qed.

(** ** The contract on samples *)

Lemma sample_contract_deployed (validators : list Address) :
  AppChainBase.constructor 0 sample_deploy_msg "app" 7 10 360 validators 1000000
  = Some (sample_contract_with validators).
Proof.
  unfold AppChainBase.constructor, sample_contract_with. cbn.
  assert (forall l vals, AppChainBase.push_all l vals = l ++ vals) as Hpush.
  { intros l vals. revert l. induction vals as [|v vals IH]; intros l; cbn.
    - by rewrite app_nil_r.
    - rewrite IH. by rewrite <- app_assoc. }
  by rewrite Hpush.
Defined.

(** 2^255 + 2^255 does not fit and reverts; 3 * 5 is 15. *)
Lemma SafeMath_exact_witness :
  AppChainBase.SafeMath_add (2 ^ 255) (2 ^ 255) = None /\
  AppChainBase.SafeMath_mul 3 5 = Some 15 /\
  AppChainBase.SafeMath_sub 3 5 = None.
Proof.
  assert (0 <= 2 ^ 255 < 2 ^ 256) as Hbig by (vm_compute; split; [discriminate|reflexivity]).
  assert (0 <= 3 < 2 ^ 256) as H3 by (vm_compute; split; [discriminate|reflexivity]).
  assert (0 <= 5 < 2 ^ 256) as H5 by (vm_compute; split; [discriminate|reflexivity]).
  destruct (SafeMath_exact (2 ^ 255) (2 ^ 255) Hbig Hbig) as (Hadd & _).
  destruct (SafeMath_exact 3 5 H3 H5) as (_ & Hsub & Hmul & _).
  exact (conj Hadd (conj Hmul Hsub)).
Defined.

(** Account 500 is no admin and no validator of the sample contract: its
    attempt to withdraw reverts and changes nothing, its flush of block
    360 returns without effect and its flush of block 361 reverts. *)
Lemma outsider_changes_nothing_witness :
  AppChainBase.step accept_all sample_contract
    (call_from 500%N, AppChainBase.WithdrawFund 500%N 1) = sample_contract /\
  AppChainBase.exec accept_all sample_contract (call_from 500%N)
    (AppChainBase.WithdrawFund 500%N 1) = None /\
  AppChainBase.exec accept_all sample_contract (call_from 500%N)
    (AppChainBase.Flush [500%N] 360 "h") = Some sample_contract /\
  AppChainBase.exec accept_all sample_contract (call_from 500%N)
    (AppChainBase.Flush [500%N] 361 "h") = None.
Proof.
  assert (500%N ∉ AppChainBase.latest_validators sample_contract) as Hout.
  { intros Hin. apply list_elem_of_In in Hin. vm_compute in Hin. intuition discriminate. }
  destruct (outsider_changes_nothing accept_all sample_contract (call_from 500%N)
              (AppChainBase.WithdrawFund 500%N 1) eq_refl Hout
              ltac:(discriminate) ltac:(discriminate)) as (Hstep & _ & Hrevert & _).
  destruct (outsider_changes_nothing accept_all sample_contract (call_from 500%N)
              (AppChainBase.Flush [500%N] 360 "h") eq_refl Hout
              ltac:(discriminate) ltac:(discriminate)) as (_ & Hflush & _ & _).
  destruct (outsider_changes_nothing accept_all sample_contract (call_from 500%N)
              (AppChainBase.Flush [500%N] 361 "h") eq_refl Hout
              ltac:(discriminate) ltac:(discriminate)) as (_ & _ & _ & Hlate).
  assert (AppChainBase.balance sample_contract > 0) as Hbal by reflexivity.
  exact (conj Hstep
          (conj (Hrevert ltac:(discriminate))
            (conj (Hflush [500%N] 360 "h"%string eq_refl eq_refl Hbal eq_refl)
                  (Hlate [500%N] 361 "h"%string eq_refl)))).
Defined.

(** The deployer makes 101 an admin and 101 removes the deployer: 101 is
    still there. *)
Lemma admin_never_lost_witness :
  exists a,
    AppChainBase.is_admin
      (AppChainBase.run accept_all sample_contract
         [(call_from 100%N, AppChainBase.AddAdmin 101%N);
          (call_from 101%N, AppChainBase.RemoveAdmin 100%N)]) a = true.
Proof.
  exact (admin_never_lost accept_all 0 sample_deploy_msg "app" 7 10 360 [201%N; 202%N]
           1000000 sample_contract
           [(call_from 100%N, AppChainBase.AddAdmin 101%N);
            (call_from 101%N, AppChainBase.RemoveAdmin 100%N)]
           (sample_contract_deployed [201%N; 202%N])).
Defined.

(** The deployer sets the genesis information; a second attempt by the
    deployer does not change it. *)
Lemma genesis_written_once_witness :
  exists s',
    AppChainBase.setGenesisInfo sample_contract (call_from 100%N) "genesis-1" = Some s' /\
    AppChainBase.getGenesisInfo
      (AppChainBase.run accept_all s'
         [(call_from 100%N, AppChainBase.SetGenesisInfo "genesis-2")])
    = "genesis-1"%string.
Proof.
  destruct (genesis_written_once accept_all sample_contract) as [Hset _].
  destruct (Hset (call_from 100%N) "genesis-1"%string eq_refl eq_refl eq_refl)
    as (s' & Hs' & Hinfo & Hflag).
  exists s'. split; [exact Hs'|].
  destruct (genesis_written_once accept_all s') as [_ Hkeep].
  destruct (Hkeep Hflag [(call_from 100%N, AppChainBase.SetGenesisInfo "genesis-2")])
    as [Hsame _].
  by rewrite Hsame.
Defined.

(** Validator 201 flushes block 360, then admin 100 flushes block 720:
    the rounds are 0, 1, 2. *)
Lemma flush_rounds_consecutive_witness :
  exists n, 1 <= n <= 3 /\
    AppChainBase.flushList
      (AppChainBase.run accept_all sample_contract
         [(call_from 201%N, AppChainBase.Flush [201%N; 202%N] 360 "a");
          (call_from 100%N, AppChainBase.Superflush 720 "b")]) = seqZ 0 n.
Proof.
  assert (Z.of_nat (length [(call_from 201%N, AppChainBase.Flush [201%N; 202%N] 360 "a");
                            (call_from 100%N, AppChainBase.Superflush 720 "b")]) + 1
          < 2 ^ 256) as Hlen by (vm_compute; reflexivity).
  exact (flush_rounds_consecutive accept_all 0 sample_deploy_msg "app" 7 10 360
           [201%N; 202%N] 1000000 sample_contract
           [(call_from 201%N, AppChainBase.Flush [201%N; 202%N] 360 "a");
            (call_from 100%N, AppChainBase.Superflush 720 "b")]
           (sample_contract_deployed [201%N; 202%N]) Hlen).
Defined.

(** Deployed without validators, the contract cannot be flushed even by
    its admin. *)
Lemma no_validators_no_flush_witness :
  AppChainBase.flushList
    (AppChainBase.run accept_all (sample_contract_with [])
       [(call_from 100%N, AppChainBase.Flush [201%N] 360 "a");
        (call_from 100%N, AppChainBase.Superflush 360 "b")]) = [0].
Proof.
  destruct (no_validators_no_flush accept_all (sample_contract_with [])
              [(call_from 100%N, AppChainBase.Flush [201%N] 360 "a");
               (call_from 100%N, AppChainBase.Superflush 360 "b")] eq_refl) as [Hlist _].
  exact Hlist.
Defined.

(** A deposit of 5 wei into the sample contract. *)
Lemma balance_tracks_ether_witness :
  exists s',
    AppChainBase.exec accept_all sample_contract
      {| AppChainBase.sender := 500%N; AppChainBase.value := 5 |} AppChainBase.AddFund
    = Some s' /\
    AppChainBase.balance s' = AppChainBase.ether s'.
Proof.
  eexists. split; [reflexivity|].
  assert (0 <= AppChainBase.balance sample_contract) as Hpos by (vm_compute; discriminate).
  assert (AppChainBase.ether sample_contract + 5 < 2 ^ 256) as Hbound
    by (vm_compute; reflexivity).
  destruct (balance_tracks_ether accept_all sample_contract _
              {| AppChainBase.sender := 500%N; AppChainBase.value := 5 |}
              AppChainBase.AddFund eq_refl ltac:(discriminate)
              ltac:(intros ? ? [=]) eq_refl Hpos ltac:(vm_compute; discriminate) Hbound)
    as [Hsame _].
  exact Hsame.
Defined.

(** The drained sample contract: validator 201 flushes block 360 and the
    balance goes from 10 to 2^256 + 10 - 5*10^16. *)
Lemma flush_wraps_balance_witness :
  exists s',
    AppChainBase.flush accept_all sample_drained (call_from 201%N) [201%N] 360 "a" = Some s' /\
    AppChainBase.balance s' = 2 ^ 256 + 10 - 5 * 10 ^ 16.
Proof.
  assert (0 < AppChainBase.balance sample_drained < AppChainBase.FLUSH_AMOUNT) as Hbal
    by (vm_compute; split; reflexivity).
  assert (AppChainBase.FLUSH_AMOUNT <= AppChainBase.ether sample_drained) as Hether
    by (vm_compute; discriminate).
  assert (201%N ∈ AppChainBase.latest_validators sample_drained) as Hin.
  { apply list_elem_of_In. vm_compute. auto. }
  destruct (flush_wraps_balance accept_all sample_drained (call_from 201%N) [201%N] 360
              "a"%string eq_refl Hbal Hether eq_refl eq_refl (or_introl Hin))
    as (s' & Hflush & Hwrap & _).
  exists s'. split; [exact Hflush|exact Hwrap].
Defined.
